(** * Semantic page search backend: extraction, chunking and the per-request
      index lifecycle of [backend/app.py]

    The development embeds the three functions of [backend/app.py]:
    [extract_elements], [chunk_elements_by_tokens] and the request handler
    [search_content].  Python strings are modelled as [string]; Python
    integers as [Z]; dictionaries with a fixed shape as records and
    free-form dictionaries (JSON bodies, metadata) as association lists.
    The libraries the handler talks to (requests, BeautifulSoup, uuid and
    ChromaDB) are collaborators: their answers are supplied by an
    environment record, and their effects are recorded in an explicit
    world state that the handler threads through. *)

From Stdlib Require Import List String Ascii Bool Arith ZArith NArith QArith Lia Sorted.
From Stdlib Require Import DecimalString DecimalNat.
Import ListNotations.

Set Warnings "-register-all".

Local Close Scope Q_scope.
Local Open Scope string_scope.
Local Open Scope list_scope.

(* ================================================================== *)
(** ** Python string primitives *)
(* ================================================================== *)

(** Whitespace as [str.split()] and [str.strip()] see it, restricted to the
    code points below 256: TAB..CR, FS..US, SPACE, NEL and NBSP. *)
Definition is_space (c : ascii) : bool :=
  let n := N_of_ascii c in
  ((9 <=? n) && (n <=? 13) || (28 <=? n) && (n <=? 31)
   || (n =? 32) || (n =? 133) || (n =? 160))%N.

Definition flush_word (cur : string) : list string :=
  match cur with
  | EmptyString => []
  | _ => [cur]
  end.

(** The scanning loop of [str.split()]: [cur] is the word being read. *)
Fixpoint split_aux (s cur : string) : list string :=
  match s with
  | EmptyString => flush_word cur
  | String c s' =>
      if is_space c then flush_word cur ++ split_aux s' EmptyString
      else split_aux s' (cur ++ String c EmptyString)
  end.

(** [s.split()] *)
Definition split (s : string) : list string := split_aux s EmptyString.

(** [sep.join(l)] *)
Definition join (sep : string) (l : list string) : string := String.concat sep l.

Fixpoint lstrip (s : string) : string :=
  match s with
  | EmptyString => EmptyString
  | String c s' => if is_space c then lstrip s' else s
  end.

Fixpoint rstrip (s : string) : string :=
  match s with
  | EmptyString => EmptyString
  | String c s' =>
      match rstrip s' with
      | EmptyString => if is_space c then EmptyString else String c EmptyString
      | r => String c r
      end
  end.

(** [s.strip()] *)
Definition strip (s : string) : string := rstrip (lstrip s).

(** Truthiness of a string and of a list. *)
Definition str_truthy (s : string) : bool :=
  match s with EmptyString => false | _ => true end.

Definition list_truthy {A} (l : list A) : bool :=
  match l with [] => false | _ => true end.

(** [len(l)] as a Python integer. *)
Definition len {A} (l : list A) : Z := Z.of_nat (List.length l).

(* ================================================================== *)
(** ** Fragments and chunks *)
(* ================================================================== *)

(** The dictionaries [{"text": .., "html": .., "tag": ..}] built by the
    extractor and by the assembler. *)
Record element := mk_element {
  text : string;
  html : string;
  tag : string
}.

(** Loop state of [chunk_elements_by_tokens]. *)
Record chunker := mk_chunker {
  chunks : list element;
  current_tokens : list string;
  current_html : list string;
  token_count : Z
}.

Definition current_tag : string := "div".

(** The dictionary appended to [chunks] at a flush. *)
Definition flushed (st : chunker) : element :=
  {| text := join " " (current_tokens st);
     html := join "" (current_html st);
     tag := current_tag |}.

(** One iteration of [for el in elements]. *)
Definition chunk_step (max_tokens : Z) (st : chunker) (el : element) : chunker :=
  let tokens := split (text el) in
  if negb (list_truthy tokens) then st
  else
    let st1 :=
      if ((token_count st + len tokens >? max_tokens)%Z
          && list_truthy (current_tokens st))%bool
      then {| chunks := chunks st ++ [flushed st];
              current_tokens := [];
              current_html := [];
              token_count := 0 |}
      else st in
    {| chunks := chunks st1;
       current_tokens := current_tokens st1 ++ tokens;
       current_html := current_html st1 ++ [html el];
       token_count := (token_count st1 + len tokens)%Z |}.

Definition chunker_init : chunker :=
  {| chunks := []; current_tokens := []; current_html := []; token_count := 0 |}.

Definition chunk_elements_by_tokens (elements : list element) (max_tokens : Z)
  : list element :=
  let st := fold_left (chunk_step max_tokens) elements chunker_init in
  if list_truthy (current_tokens st) then chunks st ++ [flushed st]
  else chunks st.

(* ================================================================== *)
(** ** The parsed document *)
(* ================================================================== *)

(** A BeautifulSoup tree.  A string node has one of three kinds:
    [NavigableString] is ordinary text (class NavigableString or CData);
    [ContainerString owner] is text of the string class that the parser
    gives to text inside a string-container tag named [owner] (Script,
    Stylesheet, TemplateString, RubyTextString, RubyParenthesisString);
    [OtherString] is a comment, declaration, doctype or processing
    instruction.  The document object itself is a [Tag] (BeautifulSoup
    names it ["[document]"]). *)
Inductive node :=
| NavigableString (s : string)
| OtherString (s : string)
| ContainerString (owner : string) (s : string)
| Tag (name : string) (attrs : list (string * string)) (contents : list node).

Definition is_tag (n : node) : bool :=
  match n with Tag _ _ _ => true | _ => false end.

(** [tag.name] *)
Definition tag_name (n : node) : string :=
  match n with Tag nm _ _ => nm | _ => EmptyString end.

(** A tag followed by the tags below it, in document order. *)
Fixpoint tag_and_descendants (n : node) : list node :=
  match n with
  | Tag _ _ cs => n :: flat_map tag_and_descendants cs
  | _ => []
  end.

(** [tag.find_all(recursive=True)]: every tag strictly below [n], in
    document order. *)
Definition find_all (n : node) : list node :=
  match n with
  | Tag _ _ cs => flat_map tag_and_descendants cs
  | _ => []
  end.

(** [x in names] for a set or list of tag names. *)
Definition name_in (names : list string) (x : string) : bool :=
  existsb (String.eqb x) names.

(** The tags whose text gets a string class of its own. *)
Definition string_containers : list string :=
  ["rt"; "rp"; "style"; "script"; "template"].

(** [tag.interesting_string_types]: [Some owner] is the string class of
    the container tag [owner], [None] the ordinary text classes. *)
Definition interesting_string_types (name : string) : option string :=
  if name_in string_containers name then Some name else None.

(** The string nodes of kind [types] below [n], in document order. *)
Fixpoint strings_below (types : option string) (n : node) : list string :=
  match n with
  | NavigableString s =>
      match types with None => [s] | Some _ => [] end
  | ContainerString owner s =>
      match types with
      | Some o => if String.eqb o owner then [s] else []
      | None => []
      end
  | OtherString _ => []
  | Tag _ _ cs => flat_map (strings_below types) cs
  end.

(** [tag.get_text(sep, strip=True)]: every string node of the kind the
    tag is interested in, stripped, the empty ones dropped, the rest
    joined by [sep]. *)
Definition get_text (sep : string) (n : node) : string :=
  join sep
    (filter str_truthy
       (map strip (strings_below (interesting_string_types (tag_name n)) n))).

(** [soup.body]: the first tag named ["body"], if any. *)
Definition soup_body (soup : node) : option node :=
  find (fun t => String.eqb (tag_name t) "body") (find_all soup).

(** [for tag in soup(names): tag.decompose()]: every tag whose name is in
    [names] is removed together with its subtree. *)
Fixpoint decompose_all (names : list string) (n : node) : node :=
  match n with
  | Tag nm attrs cs =>
      Tag nm attrs
        ((fix prune (l : list node) : list node :=
            match l with
            | [] => []
            | c :: l' =>
                if (is_tag c && name_in names (tag_name c))%bool then prune l'
                else decompose_all names c :: prune l'
            end) cs)
  | _ => n
  end.

(* ================================================================== *)
(** ** Fragment extractor *)
(* ================================================================== *)

Definition blacklist : list string :=
  ["script"; "style"; "noscript"; "header"; "footer"; "nav";
   "svg"; "meta"; "link"; "iframe"].

(** [soup.body or soup] (a tag is always truthy). *)
Definition body_or_soup (soup : node) : node :=
  match soup_body soup with Some b => b | None => soup end.

Section Extractor.

(** [str(tag)], BeautifulSoup's serializer. *)
Variable markup : node -> string.

(** The dictionary appended for a tag that passes the three tests. *)
Definition fragment_of (t : node) : element :=
  {| text := get_text " " t; html := markup t; tag := tag_name t |}.

(** The loop body of [extract_elements]: [None] is a [continue]. *)
Definition extract_step (t : node) : option element :=
  if name_in blacklist (tag_name t) then None
  else
    let text := get_text " " t in
    if negb (str_truthy text) then None
    else if (len (split text) <? 5)%Z then None
    else Some {| text := text; html := markup t; tag := tag_name t |}.

Fixpoint extract_loop (tags : list node) (elements : list element)
  : list element :=
  match tags with
  | [] => elements
  | t :: rest =>
      match extract_step t with
      | None => extract_loop rest elements
      | Some el => extract_loop rest (elements ++ [el])
      end
  end.

Definition extract_elements (soup : node) : list element :=
  let body := body_or_soup soup in
  extract_loop (find_all body) [].

End Extractor.

(* ================================================================== *)
(** ** JSON values, exceptions and the collaborators *)
(* ================================================================== *)

(** Values of a parsed JSON body and of the dictionaries the handler sends
    back; Python's [None] is [JNull]. *)
Inductive json :=
| JNull
| JBool (b : bool)
| JNum (q : Q)
| JStr (s : string)
| JArr (items : list json)
| JObj (fields : list (string * json)).

Definition dict := list (string * json).

Fixpoint lookup (k : string) (d : dict) : option json :=
  match d with
  | [] => None
  | (k', v) :: d' => if String.eqb k k' then Some v else lookup k d'
  end.

(** [d.get(k, default)] *)
Definition dict_get (d : dict) (k : string) (default : json) : json :=
  match lookup k d with Some v => v | None => default end.

(** Python truthiness of a value. *)
Definition truthy (v : json) : bool :=
  match v with
  | JNull => false
  | JBool b => b
  | JNum q => negb (Qeq_bool q 0)
  | JStr s => str_truthy s
  | JArr l => list_truthy l
  | JObj l => list_truthy l
  end.

(** A raised exception: its class and [str(e)]. *)
Inductive exn := Exception (kind : string) (msg : string).

Definition exn_str (e : exn) : string :=
  match e with Exception _ m => m end.

Definition result (A : Type) : Type := (exn + A)%type.

Definition and_then {A B} (r : result A) (k : A -> result B) : result B :=
  match r with inl e => inl e | inr a => k a end.

(** [l[i]] for [i >= 0]. *)
Definition index {A} (l : list A) (i : nat) : result A :=
  match nth_error l i with
  | Some x => inr x
  | None => inl (Exception "IndexError" "list index out of range")
  end.

(** A key of the dictionary returned by [collection.query]: not there,
    there with [None], or there with a value. *)
Inductive entry (A : Type) :=
| Absent
| IsNone
| Val (a : A).
Arguments Absent {A}.
Arguments IsNone {A}.
Arguments Val {A} a.

Record query_result := mk_query_result {
  documents : entry (list (list string));
  metadatas : entry (list (list dict));
  distances : entry (list (list Q))
}.

(** One stored document of a collection. *)
Record stored := mk_stored {
  st_id : string;
  st_document : string;
  st_metadata : dict
}.

(** Calls that leave the process, in the order they are made. *)
Inductive event :=
| EvGet (url : json)
| EvCreate (name : string)
| EvAdd (name : string)
| EvQuery (name : string)
| EvDelete (name : string)
| EvPrint (line : string).

(** What the handler can change: the index engine's table of collections
    and the log of calls. *)
Record world := mk_world {
  collections : list (string * list stored);
  trace : list event
}.

(** Answers of the collaborators. *)
Record env := mk_env {
  requests_get : json -> result string;
  html_parser : string -> result node;
  node_str : node -> string;
  uuid4_hex : string;
  create_fault : string -> option exn;
  add_fault : string -> list stored -> option exn;
  knn_query : list stored -> json -> Z -> result query_result;
  delete_fault : string -> option exn
}.

Record response := mk_response {
  status : Z;
  body : json
}.

(** *** State and exceptions *)

Definition M (A : Type) : Type := world -> result A * world.

Definition ret {A} (a : A) : M A := fun w => (inr a, w).

Definition raise {A} (e : exn) : M A := fun w => (inl e, w).

Definition bind {A B} (m : M A) (k : A -> M B) : M B :=
  fun w => match m w with
           | (inl e, w') => (inl e, w')
           | (inr a, w') => k a w'
           end.

(** [try: m except Exception as e: h e] *)
Definition try_except {A} (m : M A) (h : exn -> M A) : M A :=
  fun w => match m w with
           | (inl e, w') => h e w'
           | (inr a, w') => (inr a, w')
           end.

Definition lift {A} (r : result A) : M A := fun w => (r, w).

Notation "x <- m ;; k" := (bind m (fun x => k))
  (at level 61, m at next level, right associativity).
Notation "m ;;; k" := (bind m (fun _ => k))
  (at level 61, right associativity).

Definition log (e : event) : M unit :=
  fun w => (inr tt, {| collections := collections w; trace := trace w ++ [e] |}).

Definition has_collection (name : string) (w : world) : bool :=
  existsb (fun c => String.eqb name (fst c)) (collections w).

Definition drop_collection (name : string) (cs : list (string * list stored))
  : list (string * list stored) :=
  filter (fun c => negb (String.eqb name (fst c))) cs.

Fixpoint stored_in (name : string) (cs : list (string * list stored))
  : option (list stored) :=
  match cs with
  | [] => None
  | (n, docs) :: cs' => if String.eqb name n then Some docs else stored_in name cs'
  end.

Fixpoint store_in (name : string) (new : list stored)
  (cs : list (string * list stored)) : list (string * list stored) :=
  match cs with
  | [] => []
  | (n, docs) :: cs' =>
      if String.eqb name n then (n, docs ++ new) :: cs'
      else (n, docs) :: store_in name new cs'
  end.

(** *** The index engine *)

Section IndexEngine.

Variable E : env.

(** [chroma_client.create_collection(name=..)] *)
Definition create_collection (name : string) : M unit :=
  log (EvCreate name) ;;;
  match create_fault E name with
  | Some e => raise e
  | None =>
      fun w =>
        if has_collection name w
        then (inl (Exception "UniqueConstraintError"
                     ("Collection " ++ name ++ " already exists")), w)
        else (inr tt, {| collections := collections w ++ [(name, [])];
                         trace := trace w |})
  end.

Fixpoint zip3 (ids documents : list string) (metas : list dict) : list stored :=
  match ids, documents, metas with
  | i :: ids', d :: documents', m :: metas' =>
      {| st_id := i; st_document := d; st_metadata := m |}
        :: zip3 ids' documents' metas'
  | _, _, _ => []
  end.

(** [collection.add(documents=.., ids=.., metadatas=..)] *)
Definition collection_add (name : string) (documents ids : list string)
  (metas : list dict) : M unit :=
  log (EvAdd name) ;;;
  let new := zip3 ids documents metas in
  match add_fault E name new with
  | Some e => raise e
  | None =>
      fun w =>
        if has_collection name w
        then (inr tt, {| collections := store_in name new (collections w);
                         trace := trace w |})
        else (inl (Exception "ValueError"
                     ("Collection " ++ name ++ " does not exist")), w)
  end.

(** [collection.query(query_texts=[q], n_results=k)] *)
Definition collection_query (name : string) (q : json) (k : Z)
  : M query_result :=
  log (EvQuery name) ;;;
  fun w =>
    match stored_in name (collections w) with
    | None => (inl (Exception "ValueError"
                      ("Collection " ++ name ++ " does not exist")), w)
    | Some docs => (knn_query E docs q k, w)
    end.

(** [chroma_client.delete_collection(name)] *)
Definition delete_collection (name : string) : M unit :=
  log (EvDelete name) ;;;
  match delete_fault E name with
  | Some e => raise e
  | None =>
      fun w =>
        if has_collection name w
        then (inr tt, {| collections := drop_collection name (collections w);
                         trace := trace w |})
        else (inl (Exception "ValueError"
                     ("Collection " ++ name ++ " does not exist")), w)
  end.

End IndexEngine.

(* ================================================================== *)
(** ** The request handler *)
(* ================================================================== *)

(** [str(i)] for [i >= 0]. *)
Definition str_of_nat (i : nat) : string :=
  NilEmpty.string_of_uint (Nat.to_uint i).

(** [range(n)] *)
Definition range (n : nat) : list nat := seq 0 n.

(** [[f(i) for i in l]] where [f] may raise. *)
Fixpoint comprehension {A B} (f : A -> result B) (l : list A) : result (list B) :=
  match l with
  | [] => inr []
  | a :: l' =>
      and_then (f a) (fun b =>
      and_then (comprehension f l') (fun bs => inr (b :: bs)))
  end.

(** [results[key][0]] and [results.get(key, [[]])[0]] for a key that is
    there. *)
Definition first_row {A} (f : entry (list (list A))) : result (list A) :=
  match f with
  | Val rows => index rows 0
  | IsNone => inl (Exception "TypeError" "'NoneType' object is not subscriptable")
  | Absent => inl (Exception "KeyError" "key")
  end.

(** One entry of [formatted_results]. *)
Definition formatted (doc : string) (meta : dict) (score : Q) : json :=
  JObj [("text", JStr doc);
        ("html", dict_get meta "html" (JStr ""));
        ("tag", dict_get meta "tag" (JStr ""));
        ("score", JNum score)].

(** [for i, doc in enumerate(docs)], started at position [i] with
    [formatted_results = acc]. *)
Fixpoint format_loop (i : nat) (docs : list string) (metas : list dict)
  (dists : list Q) (acc : list json) : result (list json) :=
  match docs with
  | [] => inr acc
  | doc :: rest =>
      let meta := if Nat.ltb i (List.length metas) then nth i metas [] else [] in
      and_then (index dists i) (fun d =>
      format_loop (S i) rest metas dists (acc ++ [formatted doc meta d]))
  end.

(** The formatting block that follows the query. *)
Definition format_results (results : query_result) : result (list json) :=
  match documents results with
  | Absent => inr []
  | docs_field =>
      and_then (first_row docs_field) (fun docs =>
      and_then (match metadatas results with
                | Absent => inr (repeat [] (List.length docs))
                | f => first_row f
                end) (fun metas =>
      and_then (match distances results with
                | Absent => inr (repeat 0%Q (List.length docs))
                | f => first_row f
                end) (fun dists =>
      format_loop 0 docs metas dists [])))
  end.

Definition pruned_tags : list string :=
  ["script"; "style"; "header"; "footer"; "nav"].

Section Handler.

Variable E : env.

(** The [try] block from [texts = ...] on: the page has chunks. *)
Definition index_and_query (url query_text : json) (elements : list element)
  : M response :=
  let texts := map text elements in
  let html_chunks := map html elements in
  let collection_name := ("search_" ++ uuid4_hex E)%string in
  create_collection E collection_name ;;;
  let ids := map str_of_nat (range (List.length texts)) in
  metas <- lift (comprehension
                   (fun i =>
                      and_then (index elements i) (fun el =>
                      and_then (index html_chunks i) (fun h =>
                      inr [("source", url);
                           ("index", JNum (inject_Z (Z.of_nat i)));
                           ("tag", JStr (tag el));
                           ("html", JStr h)])))
                   (range (List.length texts))) ;;
  collection_add E collection_name texts ids metas ;;;
  results <- collection_query E collection_name query_text
               (Z.min 10 (len texts)) ;;
  delete_collection E collection_name ;;;
  formatted_results <- lift (format_results results) ;;
  ret {| status := 200; body := JObj [("results", JArr formatted_results)] |}.

(** The body of the [try] block. *)
Definition search_body (url query_text : json) : M response :=
  log (EvGet url) ;;;
  content <- lift (requests_get E url) ;;
  soup <- lift (html_parser E content) ;;
  let soup := decompose_all pruned_tags soup in
  let raw_elements := extract_elements (node_str E) soup in
  let elements := chunk_elements_by_tokens raw_elements 500 in
  if negb (list_truthy elements)
  then ret {| status := 200; body := JObj [("results", JArr [])] |}
  else index_and_query url query_text elements.

(** [search_content()]; [data] is [request.json].  [inl] is an exception
    that leaves the handler. *)
Definition search_content (data : json) : M response :=
  match data with
  | JObj d =>
      let url := dict_get d "url" JNull in
      let query_text := dict_get d "query" JNull in
      if (negb (truthy url) || negb (truthy query_text))%bool
      then ret {| status := 400;
                  body := JObj [("error", JStr "URL and Query are required")] |}
      else
        try_except (search_body url query_text)
          (fun e =>
             log (EvPrint ("Error: " ++ exn_str e)) ;;;
             ret {| status := 500; body := JObj [("error", JStr (exn_str e))] |})
  | _ => raise (Exception "AttributeError" "object has no attribute 'get'")
  end.

End Handler.

(* ================================================================== *)
(** ** Vocabulary of the statements *)
(* ================================================================== *)

Fixpoint no_space (s : string) : bool :=
  match s with
  | EmptyString => true
  | String c s' => negb (is_space c) && no_space s'
  end.

(** A token: non-empty and free of whitespace. *)
Definition word (w : string) : Prop := w <> EmptyString /\ no_space w = true.

(** The whitespace tokens of a fragment's text. *)
Definition tokens_of (el : element) : list string := split (text el).

(** The test [if not tokens: continue], negated. *)
Definition has_tokens (el : element) : bool := list_truthy (tokens_of el).

(** Whitespace token count of a fragment or chunk. *)
Definition token_total (el : element) : Z := len (split (text el)).

(** A fragment as the extractor builds them: a non-empty text with at
    least 5 whitespace tokens. *)
Definition is_fragment (el : element) : Prop :=
  text el <> EmptyString /\ (5 <= token_total el)%Z.

(** The chunk assembled from a run of consecutive fragments. *)
Definition chunk_of (g : list element) : element :=
  {| text := join " " (flat_map tokens_of g);
     html := join "" (map html g);
     tag := current_tag |}.

(** A run of fragments that the assembler may emit as one chunk: within
    budget, or a single fragment that is over budget by itself. *)
Definition group_ok (max_tokens : Z) (g : list element) : Prop :=
  g <> [] /\
  ((len (flat_map tokens_of g) <= max_tokens)%Z \/
   exists el, g = [el] /\ (max_tokens < len (tokens_of el))%Z).

(** What the loop state stands for after the fragments [seen]: the chunks
    emitted are the runs [gs], the accumulator holds the run [cur]. *)
Record chunker_inv (max_tokens : Z) (seen : list element) (st : chunker)
  (gs : list (list element)) (cur : list element) : Prop := {
  inv_chunks : chunks st = map chunk_of gs;
  inv_tokens : current_tokens st = flat_map tokens_of cur;
  inv_html : current_html st = map html cur;
  inv_count : token_count st = len (flat_map tokens_of cur);
  inv_seen : List.concat gs ++ cur = filter has_tokens seen;
  inv_groups : Forall (group_ok max_tokens) gs;
  inv_cur : cur = [] \/ group_ok max_tokens cur
}.

(** ** Sample inputs *)

Definition sample_p : element :=
  {| text := "alpha beta gamma"; html := "<p>alpha beta gamma</p>"; tag := "p" |}.

Definition sample_i : element :=
  {| text := "delta epsilon"; html := "<i>delta epsilon</i>"; tag := "i" |}.

Definition sample_long : element :=
  {| text := "one two three four five six";
     html := "<li>one two three four five six</li>"; tag := "li" |}.

(** A fragment whose text has no token. *)
Definition sample_blank : element :=
  {| text := "  "; html := "<hr/>"; tag := "hr" |}.

Definition sample_fragments : list element :=
  [sample_p; sample_i; sample_long; sample_i].

Definition sample_five : element :=
  {| text := "alpha  beta gamma delta epsilon";
     html := "<p>alpha  beta gamma delta epsilon</p>"; tag := "p" |}.

(** Three fragments of 5, 6 and 5 tokens. *)
Definition sample_extracted : list element :=
  [sample_five; sample_long; sample_five].

(** A page whose only text sits in a paragraph inside a [nav]. *)
Definition sample_paragraph : node :=
  Tag "p" [] [NavigableString "  one two three ";
              Tag "b" [] [NavigableString "four five six"]].

Definition sample_nav : node := Tag "nav" [("class", "menu")] [sample_paragraph].

Definition sample_soup : node :=
  Tag "[document]" []
    [Tag "html" []
       [Tag "head" [] [Tag "title" [] [NavigableString "t"]];
        Tag "body" [] [sample_nav; OtherString "a comment"]]].

(** A serializer for the samples: the tag's name in angle brackets. *)
Definition sample_markup (n : node) : string := "<" ++ tag_name n ++ ">".

(** ** Vocabulary of the statements on the handler *)

(** The key is not in the body, or holds the empty string. *)
Definition missing_or_empty (d : dict) (k : string) : Prop :=
  lookup k d = None \/ lookup k d = Some (JStr "").

(** The chunk sequence the handler computes from a parsed page. *)
Definition page_chunks (E : env) (soup : node) : list element :=
  chunk_elements_by_tokens
    (extract_elements (node_str E) (decompose_all pruned_tags soup)) 500.

(** The name of the request's collection. *)
Definition request_collection (E : env) : string := "search_" ++ uuid4_hex E.

Definition empty_results : response :=
  {| status := 200; body := JObj [("results", JArr [])] |}.

Definition client_error : response :=
  {| status := 400; body := JObj [("error", JStr "URL and Query are required")] |}.

Definition server_error (e : exn) : response :=
  {| status := 500; body := JObj [("error", JStr (exn_str e))] |}.

(** The world after the page fetch. *)
Definition fetched (url : json) (w : world) : world :=
  {| collections := collections w; trace := trace w ++ [EvGet url] |}.

(** The metadata dictionary stored with chunk [c] at position [i]. *)
Definition chunk_metadata (url : json) (i : nat) (c : element) : dict :=
  [("source", url);
   ("index", JNum (inject_Z (Z.of_nat i)));
   ("tag", JStr (tag c));
   ("html", JStr (html c))].

(** Chunk [c] at position [i] as the collection stores it. *)
Definition chunk_stored (url : json) (ic : nat * element) : stored :=
  {| st_id := str_of_nat (fst ic);
     st_document := text (snd ic);
     st_metadata := chunk_metadata url (fst ic) (snd ic) |}.

Definition numbered {A} (k : nat) (l : list A) : list (nat * A) :=
  combine (seq k (List.length l)) l.

(** The content of the request's collection once it is populated. *)
Definition indexed_chunks (url : json) (chunks : list element) : list stored :=
  map (chunk_stored url) (numbered 0 chunks).





(** The world after one more call. *)
Definition logged (e : event) (w : world) : world :=
  {| collections := collections w; trace := trace w ++ [e] |}.

(** The calls of a request that gets as far as the query. *)
Definition calls_to_query (url : json) (name : string) : list event :=
  [EvGet url; EvCreate name; EvAdd name; EvQuery name].



(** A query answer with three documents, metadata for the first one only
    and no distances. *)
Definition sample_answer : query_result :=
  {| documents := Val [["first chunk"; "second chunk"; "third chunk"]];
     metadatas := Val [[ [("html", JStr "<p>first chunk</p>"); ("tag", JStr "div")] ]];
     distances := Absent |}.

(** A page with one paragraph of six words and a script. *)
Definition sample_page : node :=
  Tag "[document]" []
    [Tag "html" []
       [Tag "body" []
          [Tag "p" [] [NavigableString "one two three four five six"];
           Tag "script" [] [NavigableString "var a = 1 ; var b = 2 ;"]]]].

(** An index that answers with the first [k] stored documents, at
    distances 0, 1, 2, ... *)
Definition first_k (docs : list stored) (q : json) (k : Z) : result query_result :=
  if (k <=? 0)%Z
  then inl (Exception "ValueError" "n_results must be positive")
  else
    let top := firstn (Z.to_nat k) docs in
    inr {| documents := Val [map st_document top];
           metadatas := Val [map st_metadata top];
           distances := Val [map (fun i => inject_Z (Z.of_nat i))
                               (seq 0 (List.length top))] |}.

(** An index whose query fails. *)
Definition embedding_down (docs : list stored) (q : json) (k : Z)
  : result query_result :=
  inl (Exception "RuntimeError" "embedding failed").

(** Collaborators without faults, for a given page and index. *)
Definition sample_env (page : node)
  (knn : list stored -> json -> Z -> result query_result) : env :=
  {| requests_get := fun _ => inr "<html>...</html>";
     html_parser := fun _ => inr page;
     node_str := sample_markup;
     uuid4_hex := "1f0e";
     create_fault := fun _ => None;
     add_fault := fun _ _ => None;
     knn_query := knn;
     delete_fault := fun _ => None |}.

Definition sample_url : json := JStr "http://example.org/".

Definition sample_request : dict :=
  [("url", sample_url); ("query", JStr "six words")].

(** An engine without collections, before any call. *)
Definition idle : world := {| collections := []; trace := [] |}.

(** ** The runs behind the chunks *)

(** Token count of a run of fragments. *)
Definition run_tokens (g : list element) : Z := len (flat_map tokens_of g).

(** The assembler's loop on runs of fragments instead of joined strings:
    the runs closed so far and the run being filled. *)
Definition runs_step (max_tokens : Z) (p : list (list element) * list element)
  (el : element) : list (list element) * list element :=
  if negb (has_tokens el) then p
  else if ((run_tokens (snd p) + len (tokens_of el) >? max_tokens)%Z
           && list_truthy (flat_map tokens_of (snd p)))%bool
       then (fst p ++ [snd p], [el])
       else (fst p, snd p ++ [el]).

(** The runs of fragments that the assembler turns into chunks. *)
Definition chunk_runs (elements : list element) (max_tokens : Z)
  : list (list element) :=
  let p := fold_left (runs_step max_tokens) elements ([], []) in
  if list_truthy (flat_map tokens_of (snd p)) then fst p ++ [snd p] else fst p.

(** The loop state that stands for closed runs and a run being filled. *)
Definition runs_state (p : list (list element) * list element) : chunker :=
  {| chunks := map chunk_of (fst p);
     current_tokens := flat_map tokens_of (snd p);
     current_html := map html (snd p);
     token_count := run_tokens (snd p) |}.

(** Each run was closed because the next fragment did not fit: a run
    followed by another one, plus the first fragment of that one, is over
    budget. *)
Fixpoint greedy (max_tokens : Z) (runs : list (list element)) : Prop :=
  match runs with
  | [] => True
  | g1 :: rest =>
      match rest with
      | [] => True
      | g2 :: _ =>
          (exists el more, g2 = el :: more /\
                           (max_tokens < run_tokens g1 + len (tokens_of el))%Z) /\
          greedy max_tokens rest
      end
  end.

(** What the loop on runs keeps after the fragments [seen]. *)
Record runs_inv (max_tokens : Z) (seen : list element)
  (p : list (list element) * list element) : Prop := {
  runs_seen : List.concat (fst p) ++ snd p = filter has_tokens seen;
  runs_start : snd p = [] -> fst p = [];
  runs_greedy : snd p <> [] -> greedy max_tokens (fst p ++ [snd p])
}.

(** The chunk made of a single fragment. *)
Definition chunk_of_fragment (el : element) : element :=
  {| text := join " " (split (text el)); html := html el; tag := current_tag |}.

(** ** Vocabulary of the further statements on the extractor *)

(** The tests a visited tag passes to become a fragment. *)
Definition kept (t : node) : bool :=
  (negb (name_in blacklist (tag_name t))
   && (5 <=? len (split (get_text " " t)))%Z)%bool.

(** The fragments the handler extracts from a parsed page. *)
Definition page_fragments (E : env) (soup : node) : list element :=
  extract_elements (node_str E) (decompose_all pruned_tags soup).

(** ** Vocabulary of the further statements on the handler *)

(** The calls to the index engine of a complete request, in order. *)
Definition engine_calls (name : string) : list event :=
  [EvCreate name; EvAdd name; EvQuery name; EvDelete name].

(** [l] is an initial segment of [full]. *)
Definition prefix_of {A} (l full : list A) : Prop :=
  exists rest, l ++ rest = full.

(** What a request may leave in the engine's table: nothing, or its own
    collection, added at the end of a table that did not have the name. *)
Definition table_after (E : env) (w w' : world) : Prop :=
  collections w' = collections w \/
  (has_collection (request_collection E) w = false /\
   exists docs,
     collections w' = collections w ++ [(request_collection E, docs)]).

(** The values Python takes as false among those a JSON body can hold. *)
Definition falsy_values : list json :=
  [JNull; JBool false; JNum 0; JStr ""; JArr []; JObj []].

Definition is_object (data : json) : bool :=
  match data with JObj _ => true | _ => false end.

(** ** Vocabulary of the statement on missing fields *)





(** An answer with documents only. *)
Definition sample_bare_answer : query_result :=
  {| documents := Val [["first chunk"; "second chunk"]];
     metadatas := Absent;
     distances := Absent |}.

(* ================================================================== *)
(** * Properties *)
(* ================================================================== *)

(** ** Strings *)

Lemma str_app_nil_r (s : string) : (s ++ "")%string = s.
Proof. induction s as [|c s IH]; simpl; [reflexivity | now rewrite IH]. Qed.

Lemma str_app_assoc (a b c : string) :
  ((a ++ b) ++ c)%string = (a ++ (b ++ c))%string.
Proof. induction a as [|x a IH]; simpl; [reflexivity | now rewrite IH]. Qed.

Lemma no_space_app (a b : string) :
  no_space (a ++ b) = (no_space a && no_space b)%bool.
Proof.
  induction a as [|x a IH]; simpl; [reflexivity|].
  rewrite IH. now rewrite andb_assoc.
Qed.

Lemma flush_word_word (cur : string) :
  no_space cur = true -> Forall word (flush_word cur).
Proof.
  intros H. destruct cur as [|c cur]; simpl; constructor; [|constructor].
  split; [discriminate | exact H].
Qed.

(** Every token produced by [split] is a word. *)
Lemma split_aux_words (s : string) :
  forall cur, no_space cur = true -> Forall word (split_aux s cur).
Proof.
  induction s as [|c s IH]; intros cur Hcur; simpl.
  - now apply flush_word_word.
  - destruct (is_space c) eqn:Hc.
    + apply Forall_app. split; [now apply flush_word_word | now apply IH].
    + apply IH. rewrite no_space_app, Hcur. simpl. now rewrite Hc.
Qed.

Lemma split_words (s : string) : Forall word (split s).
Proof. now apply split_aux_words. Qed.

(** Reading a whitespace-free prefix only extends the word being read. *)
Lemma split_aux_prefix (w : string) :
  forall s cur, no_space w = true ->
    split_aux (w ++ s) cur = split_aux s (cur ++ w).
Proof.
  induction w as [|c w IH]; intros s cur Hw; simpl.
  - now rewrite str_app_nil_r.
  - simpl in Hw. apply andb_prop in Hw as [Hc Hw].
    apply negb_true_iff in Hc. rewrite Hc.
    rewrite IH by assumption. now rewrite str_app_assoc.
Qed.

Lemma split_word (w : string) : word w -> split w = [w].
Proof.
  intros [Hne Hw]. unfold split.
  rewrite <- (str_app_nil_r w) at 1.
  rewrite split_aux_prefix by assumption. simpl.
  destruct w; [congruence | reflexivity].
Qed.

Lemma split_aux_space (s cur : string) :
  split_aux (String " " s) cur = flush_word cur ++ split s.
Proof. reflexivity. Qed.

(** Splitting a space-joined list of words gives the words back. *)
Lemma split_join (l : list string) :
  Forall word l -> split (join " " l) = l.
Proof.
  induction l as [|w l IH]; intros H; [reflexivity|].
  inversion H as [|? ? Hw Hl]; subst.
  destruct l as [|w2 l].
  - now apply split_word.
  - change (join " " (w :: w2 :: l))
      with (w ++ String " " (join " " (w2 :: l)))%string.
    unfold split at 1. destruct Hw as [Hne Hw].
    rewrite split_aux_prefix by assumption.
    rewrite split_aux_space, IH by assumption.
    destruct w; [congruence | reflexivity].
Qed.

Lemma join_empty_cons (x : string) (l : list string) :
  join "" (x :: l) = (x ++ join "" l)%string.
Proof.
  destruct l; simpl; [now rewrite str_app_nil_r | reflexivity].
Qed.

Lemma join_empty_app (l1 l2 : list string) :
  join "" (l1 ++ l2) = (join "" l1 ++ join "" l2)%string.
Proof.
  induction l1 as [|x l1 IH]; [reflexivity|].
  rewrite <- app_comm_cons, !join_empty_cons, IH.
  now rewrite str_app_assoc.
Qed.

(** ** Chunk assembler *)

Lemma len_app {A} (l1 l2 : list A) : len (l1 ++ l2) = (len l1 + len l2)%Z.
Proof. unfold len. rewrite length_app. lia. Qed.

Lemma len_nonneg {A} (l : list A) : (0 <= len l)%Z.
Proof. unfold len. lia. Qed.

Lemma list_truthy_false {A} (l : list A) : list_truthy l = false -> l = [].
Proof. destruct l; [reflexivity | discriminate]. Qed.

(** The chunk flushed from a state is the chunk of the run it holds. *)
Lemma flushed_chunk_of max_tokens seen st gs cur :
  chunker_inv max_tokens seen st gs cur -> flushed st = chunk_of cur.
Proof.
  intros H. unfold flushed, chunk_of.
  now rewrite (inv_tokens _ _ _ _ _ H), (inv_html _ _ _ _ _ H).
Qed.

(** Every fragment held by the state has tokens. *)
Lemma inv_cur_has_tokens max_tokens seen st gs cur :
  chunker_inv max_tokens seen st gs cur ->
  Forall (fun el => has_tokens el = true) cur.
Proof.
  intros H. apply Forall_forall. intros el Hel.
  assert (Hin : In el (filter has_tokens seen)).
  { rewrite <- (inv_seen _ _ _ _ _ H). apply in_or_app. now right. }
  now apply filter_In in Hin.
Qed.

(** The accumulator is empty exactly when the run it holds is. *)
Lemma inv_cur_empty max_tokens seen st gs cur :
  chunker_inv max_tokens seen st gs cur ->
  list_truthy (current_tokens st) = false -> cur = [].
Proof.
  intros H Hf. pose proof (inv_cur_has_tokens _ _ _ _ _ H) as Hall.
  rewrite (inv_tokens _ _ _ _ _ H) in Hf.
  destruct cur as [|el cur]; [reflexivity|].
  inversion Hall as [|? ? Hel _]; subst.
  unfold has_tokens in Hel. simpl in Hf.
  destruct (tokens_of el); discriminate.
Qed.

Lemma inv_cur_nonempty max_tokens seen st gs cur :
  chunker_inv max_tokens seen st gs cur ->
  list_truthy (current_tokens st) = true -> cur <> [].
Proof.
  intros H Ht ->. rewrite (inv_tokens _ _ _ _ _ H) in Ht. discriminate.
Qed.

Lemma chunker_inv_init max_tokens :
  chunker_inv max_tokens [] chunker_init [] [].
Proof. constructor; simpl; auto. Qed.

Lemma group_ok_single max_tokens el : group_ok max_tokens [el].
Proof.
  split; [discriminate|].
  destruct (Z_le_gt_dec (len (flat_map tokens_of [el])) max_tokens) as [Hle|Hgt].
  - now left.
  - right. exists el. split; [reflexivity|].
    simpl in Hgt. rewrite app_nil_r in Hgt. lia.
Qed.

(** One iteration keeps the invariant. *)
Lemma chunk_step_inv max_tokens seen st gs cur el :
  chunker_inv max_tokens seen st gs cur ->
  exists gs' cur',
    chunker_inv max_tokens (seen ++ [el]) (chunk_step max_tokens st el) gs' cur'.
Proof.
  intros H. unfold chunk_step.
  destruct (list_truthy (split (text el))) eqn:Htok; simpl.
  2:{ exists gs, cur. destruct H. constructor; auto.
      rewrite filter_app. simpl. unfold has_tokens, tokens_of. rewrite Htok.
      now rewrite app_nil_r. }
  assert (Hfilter : filter has_tokens (seen ++ [el]) = filter has_tokens seen ++ [el]).
  { rewrite filter_app. simpl. unfold has_tokens, tokens_of. now rewrite Htok. }
  destruct ((token_count st + len (split (text el)) >? max_tokens)%Z
            && list_truthy (current_tokens st))%bool eqn:Hflush.
  - apply andb_prop in Hflush as [_ Hne].
    pose proof (inv_cur_nonempty _ _ _ _ _ H Hne) as Hcur.
    exists (gs ++ [cur]), [el]. constructor; simpl.
    + rewrite map_app. simpl.
      now rewrite (flushed_chunk_of _ _ _ _ _ H), (inv_chunks _ _ _ _ _ H).
    + now rewrite app_nil_r.
    + reflexivity.
    + now rewrite app_nil_r.
    + rewrite Hfilter, <- (inv_seen _ _ _ _ _ H), concat_app. simpl.
      now rewrite app_nil_r.
    + apply Forall_app. split; [exact (inv_groups _ _ _ _ _ H)|].
      constructor; [|constructor].
      destruct (inv_cur _ _ _ _ _ H) as [->|Hok]; [congruence | exact Hok].
    + right. apply group_ok_single.
  - exists gs, (cur ++ [el]). constructor; simpl.
    + exact (inv_chunks _ _ _ _ _ H).
    + rewrite flat_map_app. simpl. rewrite app_nil_r.
      now rewrite (inv_tokens _ _ _ _ _ H).
    + rewrite map_app. simpl. now rewrite (inv_html _ _ _ _ _ H).
    + rewrite flat_map_app. simpl. rewrite app_nil_r, len_app.
      now rewrite (inv_count _ _ _ _ _ H).
    + rewrite Hfilter, <- (inv_seen _ _ _ _ _ H). now rewrite app_assoc.
    + exact (inv_groups _ _ _ _ _ H).
    + right. apply andb_false_iff in Hflush as [Hfit|Hempty].
      * split; [now destruct cur|]. left.
        rewrite flat_map_app. simpl. rewrite app_nil_r, len_app.
        rewrite <- (inv_count _ _ _ _ _ H). unfold tokens_of. lia.
      * rewrite (inv_cur_empty _ _ _ _ _ H Hempty). apply group_ok_single.
Qed.

(** The invariant holds after any prefix of the loop. *)
Lemma chunk_loop_inv max_tokens elements :
  exists gs cur,
    chunker_inv max_tokens elements
      (fold_left (chunk_step max_tokens) elements chunker_init) gs cur.
Proof.
  induction elements as [|el elements IH] using rev_ind.
  - exists [], []. apply chunker_inv_init.
  - destruct IH as (gs & cur & H). rewrite fold_left_app. simpl.
    now apply chunk_step_inv with (gs := gs) (cur := cur).
Qed.

(** The output is the list of chunks of a partition of the fragments that
    have tokens into consecutive runs, each of them within budget or a
    single oversized fragment. *)
Lemma chunk_groups elements max_tokens :
  exists groups,
    chunk_elements_by_tokens elements max_tokens = map chunk_of groups /\
    List.concat groups = filter has_tokens elements /\
    Forall (group_ok max_tokens) groups.
Proof.
  destruct (chunk_loop_inv max_tokens elements) as (gs & cur & H).
  unfold chunk_elements_by_tokens.
  destruct (list_truthy (current_tokens _)) eqn:Hne.
  - pose proof (inv_cur_nonempty _ _ _ _ _ H Hne) as Hcur.
    exists (gs ++ [cur]). repeat split.
    + rewrite map_app. simpl.
      now rewrite (flushed_chunk_of _ _ _ _ _ H), (inv_chunks _ _ _ _ _ H).
    + rewrite concat_app. simpl. rewrite app_nil_r.
      exact (inv_seen _ _ _ _ _ H).
    + apply Forall_app. split; [exact (inv_groups _ _ _ _ _ H)|].
      constructor; [|constructor].
      destruct (inv_cur _ _ _ _ _ H) as [->|Hok]; [congruence | exact Hok].
  - pose proof (inv_cur_empty _ _ _ _ _ H Hne) as Hcur.
    exists gs. repeat split.
    + exact (inv_chunks _ _ _ _ _ H).
    + rewrite <- (inv_seen _ _ _ _ _ H), Hcur. now rewrite app_nil_r.
    + exact (inv_groups _ _ _ _ _ H).
Qed.

Lemma chunk_of_tokens (g : list element) :
  split (text (chunk_of g)) = flat_map tokens_of g.
Proof.
  simpl. apply split_join. apply Forall_flat_map.
  apply Forall_forall. intros el _. apply split_words.
Qed.

Lemma chunks_markup (gs : list (list element)) :
  join "" (map html (map chunk_of gs)) = join "" (map html (List.concat gs)).
Proof.
  induction gs as [|g gs IH]; [reflexivity|].
  simpl map. rewrite join_empty_cons, IH. simpl List.concat.
  now rewrite map_app, join_empty_app.
Qed.

Lemma chunks_tokens (gs : list (list element)) :
  flat_map (fun c => split (text c)) (map chunk_of gs)
  = flat_map tokens_of (List.concat gs).
Proof.
  induction gs as [|g gs IH]; [reflexivity|].
  change (flat_map (fun c => split (text c)) (map chunk_of (g :: gs)))
    with (split (text (chunk_of g))
          ++ flat_map (fun c => split (text c)) (map chunk_of gs)).
  rewrite IH, chunk_of_tokens.
  simpl List.concat. now rewrite flat_map_app.
Qed.

Lemma tokens_of_filter (l : list element) :
  flat_map tokens_of (filter has_tokens l) = flat_map tokens_of l.
Proof.
  induction l as [|el l IH]; [reflexivity|].
  simpl. destruct (has_tokens el) eqn:Hel; simpl; rewrite IH; [reflexivity|].
  unfold has_tokens in Hel. now rewrite (list_truthy_false _ Hel).
Qed.

Lemma len_tokens_in (g : list element) (el : element) :
  In el g -> (len (tokens_of el) <= len (flat_map tokens_of g))%Z.
Proof.
  induction g as [|x g IH]; intros Hin; [contradiction|].
  simpl. rewrite len_app. destruct Hin as [->|Hin].
  - pose proof (len_nonneg (flat_map tokens_of g)). lia.
  - specialize (IH Hin). pose proof (len_nonneg (tokens_of x)). lia.
Qed.

(** The assembler never reads a fragment's tag. *)
Lemma chunk_step_retag (f : element -> string) max_tokens st el :
  chunk_step max_tokens st
    {| text := text el; html := html el; tag := f el |}
  = chunk_step max_tokens st el.
Proof. reflexivity. Qed.

Lemma chunk_loop_retag (f : element -> string) max_tokens elements :
  forall st,
    fold_left (chunk_step max_tokens)
      (map (fun el => {| text := text el; html := html el; tag := f el |}) elements) st
    = fold_left (chunk_step max_tokens) elements st.
Proof.
  induction elements as [|el elements IH]; intros st; [reflexivity|].
  simpl map. simpl fold_left. now rewrite chunk_step_retag, IH.
Qed.

(** ** Claims on the chunk assembler *)

(** A fragment without tokens is skipped, and its markup reaches no
    chunk. *)
Example zero_token_fragment_skipped :
  chunk_elements_by_tokens [sample_p; sample_blank; sample_i] 500
  = chunk_elements_by_tokens [sample_p; sample_i] 500 /\
  join "" (map html (chunk_elements_by_tokens [sample_p; sample_blank; sample_i] 500))
  <> join "" (map html [sample_p; sample_blank; sample_i]).
Proof. split; [reflexivity|]. vm_compute. discriminate. Qed.

(** The round trip on any list of dictionaries: the markup that comes back
    is that of the elements that have a token, the tokens are those of all
    elements. *)
Lemma chunk_round_trip_any (elements : list element) (max_tokens : Z) :
  join "" (map html (chunk_elements_by_tokens elements max_tokens))
  = join "" (map html (filter has_tokens elements)) /\
  flat_map (fun c => split (text c)) (chunk_elements_by_tokens elements max_tokens)
  = flat_map (fun el => split (text el)) elements.
Proof.
  destruct (chunk_groups elements max_tokens) as (gs & -> & Hcat & _).
  split.
  - now rewrite chunks_markup, Hcat.
  - rewrite chunks_tokens, Hcat. apply tokens_of_filter.
Qed.

Lemma fragments_have_tokens (elements : list element) :
  Forall is_fragment elements -> filter has_tokens elements = elements.
Proof.
  induction 1 as [|el elements [_ Hfloor] _ IH]; [reflexivity|].
  simpl. rewrite IH. unfold has_tokens, tokens_of, token_total, len in *.
  destruct (split (text el)); [simpl in Hfloor; lia | reflexivity].
Qed.

(** C2: for every sequence of fragments and every [max_tokens >= 1], the
    chunks' markup strings concatenated in order are the concatenation of
    all input fragments' markup strings, and the chunks' texts tokenized
    in order are the concatenation of the input fragments' token
    sequences: nothing is lost, reordered or duplicated. *)
Theorem chunk_round_trip (elements : list element) (max_tokens : Z) :
  Forall is_fragment elements ->
  (1 <= max_tokens)%Z ->
  join "" (map html (chunk_elements_by_tokens elements max_tokens))
  = join "" (map html elements) /\
  flat_map (fun c => split (text c)) (chunk_elements_by_tokens elements max_tokens)
  = flat_map (fun el => split (text el)) elements.
Proof.
  intros Hfragments _.
  destruct (chunk_round_trip_any elements max_tokens) as [Hmarkup Htokens].
  rewrite (fragments_have_tokens elements Hfragments) in Hmarkup.
  now split.
Qed.

Lemma chunk_round_trip_witness :
  Forall is_fragment sample_extracted /\
  (1 <= 11)%Z /\
  List.length (chunk_elements_by_tokens sample_extracted 11) = 2 /\
  join "" (map html (chunk_elements_by_tokens sample_extracted 11))
  = join "" (map html sample_extracted) /\
  flat_map (fun c => split (text c)) (chunk_elements_by_tokens sample_extracted 11)
  = flat_map (fun el => split (text el)) sample_extracted.
Proof.
  assert (Hfragments : Forall is_fragment sample_extracted).
  { repeat constructor; try discriminate; vm_compute; discriminate. }
  split; [exact Hfragments|]. split; [lia|]. split; [reflexivity|].
  apply (chunk_round_trip sample_extracted 11 Hfragments). lia.
Defined.

(** C3: for every fragment sequence and every [max_tokens >= 1], the output
    is the list of chunks of consecutive runs of the fragments; every chunk
    has at most [max_tokens] tokens unless its run is a single fragment
    with more than [max_tokens] tokens; and a fragment with more than
    [max_tokens] tokens is the only fragment of its run, so its chunk has
    exactly its tokens and its markup. *)
Theorem chunk_token_budget (elements : list element) (max_tokens : Z) :
  (1 <= max_tokens)%Z ->
  exists groups,
    chunk_elements_by_tokens elements max_tokens = map chunk_of groups /\
    List.concat groups = filter has_tokens elements /\
    Forall (fun g =>
              (token_total (chunk_of g) <= max_tokens)%Z \/
              exists el, g = [el] /\ (max_tokens < token_total el)%Z) groups /\
    forall g el,
      In g groups -> In el g -> (max_tokens < token_total el)%Z ->
      g = [el] /\
      split (text (chunk_of g)) = split (text el) /\
      html (chunk_of g) = html el.
Proof.
  intros _. destruct (chunk_groups elements max_tokens) as (gs & Hout & Hcat & Hok).
  exists gs. split; [exact Hout|]. split; [exact Hcat|]. split.
  - eapply Forall_impl; [|exact Hok]. intros g [_ Hg].
    unfold token_total. rewrite chunk_of_tokens. exact Hg.
  - intros g el Hg Hel Hbig.
    rewrite Forall_forall in Hok.
    destruct (Hok g Hg) as [_ [Hfit|(el' & -> & _)]].
    + pose proof (len_tokens_in g el Hel).
      unfold token_total, tokens_of in *. lia.
    + destruct Hel as [->|[]]. split; [reflexivity|]. split; [|reflexivity].
      rewrite chunk_of_tokens. simpl. now rewrite app_nil_r.
Qed.

Lemma chunk_token_budget_witness :
  (1 <= 5)%Z /\
  exists groups,
    chunk_elements_by_tokens sample_fragments 5 = map chunk_of groups /\
    List.concat groups = filter has_tokens sample_fragments /\
    Forall (fun g =>
              (token_total (chunk_of g) <= 5)%Z \/
              exists el, g = [el] /\ (5 < token_total el)%Z) groups /\
    forall g el,
      In g groups -> In el g -> (5 < token_total el)%Z ->
      g = [el] /\
      split (text (chunk_of g)) = split (text el) /\
      html (chunk_of g) = html el.
Proof.
  split; [lia|]. apply (chunk_token_budget sample_fragments 5). lia.
Defined.

(** C9: every chunk carries the tag ["div"], whatever the tags of the
    fragments are: relabelling the fragments leaves the output unchanged. *)
Theorem chunk_tag_fixed (elements : list element) (max_tokens : Z) :
  Forall (fun c => tag c = "div") (chunk_elements_by_tokens elements max_tokens) /\
  forall f : element -> string,
    chunk_elements_by_tokens
      (map (fun el => {| text := text el; html := html el; tag := f el |}) elements)
      max_tokens
    = chunk_elements_by_tokens elements max_tokens.
Proof.
  split.
  - destruct (chunk_groups elements max_tokens) as (gs & -> & _).
    apply Forall_forall. intros c Hc. apply in_map_iff in Hc as (g & <- & _).
    reflexivity.
  - intros f. unfold chunk_elements_by_tokens. now rewrite chunk_loop_retag.
Qed.

(** ** Fragment extractor *)

(** Induction over a document, with the hypothesis on every child. *)
Lemma node_induction (P : node -> Prop) :
  (forall s, P (NavigableString s)) ->
  (forall s, P (OtherString s)) ->
  (forall owner s, P (ContainerString owner s)) ->
  (forall nm attrs cs, Forall P cs -> P (Tag nm attrs cs)) ->
  forall n, P n.
Proof.
  intros Hs Ho Hc Ht. fix IH 1. intros [s|s|owner s|nm attrs cs].
  - apply Hs.
  - apply Ho.
  - apply Hc.
  - apply Ht. induction cs as [|c cs IHcs]; constructor; [apply IH | exact IHcs].
Qed.

Lemma tag_and_descendants_trans (r : node) :
  forall b t,
    In b (tag_and_descendants r) -> In t (tag_and_descendants b) ->
    In t (tag_and_descendants r).
Proof.
  induction r as [s|s|owner s|nm attrs cs IH] using node_induction; intros b t Hb Ht;
    try contradiction.
  simpl in Hb. destruct Hb as [<-|Hb]; [exact Ht|].
  simpl. right. apply in_flat_map in Hb as (c & Hc & Hb).
  apply in_flat_map. exists c. split; [exact Hc|].
  rewrite Forall_forall in IH. now apply (IH c Hc b t).
Qed.

Lemma find_all_below (b t : node) :
  In t (find_all b) -> In t (tag_and_descendants b).
Proof. destruct b; simpl; auto. Qed.

(** What lies below a visited tag is visited as well. *)
Lemma find_all_trans (r b t : node) :
  In b (find_all r) -> In t (find_all b) -> In t (find_all r).
Proof.
  intros Hb Ht. destruct r as [s|s|owner s|nm attrs cs]; try contradiction.
  simpl in *. apply in_flat_map in Hb as (c & Hc & Hb).
  apply in_flat_map. exists c. split; [exact Hc|].
  apply tag_and_descendants_trans with (b := b); [exact Hb|].
  now apply find_all_below.
Qed.

Section ExtractorFacts.

Variable markup : node -> string.

(** The fragments appended by the loop are those of the tags that pass
    [extract_step], in the order of the tags. *)
Lemma extract_loop_spec (tags : list node) :
  forall acc,
    extract_loop markup tags acc
    = acc ++ flat_map (fun t => match extract_step markup t with
                                | Some el => [el]
                                | None => []
                                end) tags.
Proof.
  induction tags as [|t tags IH]; intros acc; simpl.
  - now rewrite app_nil_r.
  - destruct (extract_step markup t) as [el|]; rewrite IH; [|reflexivity].
    now rewrite <- app_assoc.
Qed.

Lemma extract_step_some (t : node) (el : element) :
  extract_step markup t = Some el ->
  name_in blacklist (tag_name t) = false /\
  str_truthy (get_text " " t) = true /\
  (5 <= len (split (get_text " " t)))%Z /\
  el = fragment_of markup t.
Proof.
  unfold extract_step. intros H.
  destruct (name_in blacklist (tag_name t)); [discriminate|].
  destruct (str_truthy (get_text " " t)); [|discriminate]. simpl in H.
  destruct (len (split (get_text " " t)) <? 5)%Z eqn:Hlt; [discriminate|].
  apply Z.ltb_ge in Hlt. inversion H. auto.
Qed.

Lemma extract_step_keeps (t : node) :
  name_in blacklist (tag_name t) = false ->
  (5 <= len (split (get_text " " t)))%Z ->
  extract_step markup t = Some (fragment_of markup t).
Proof.
  intros Hname Hfloor. unfold extract_step. rewrite Hname.
  destruct (get_text " " t) eqn:Htext.
  - exfalso. revert Hfloor. vm_compute. intros H. now apply H.
  - simpl. apply Z.ltb_ge in Hfloor. rewrite Hfloor.
    unfold fragment_of. now rewrite Htext.
Qed.

(** The fragments of a document are those of the visited tags that pass
    the loop's tests. *)
Lemma extract_elements_in (soup : node) (el : element) :
  In el (extract_elements markup soup) <->
  exists t, In t (find_all (body_or_soup soup)) /\
            extract_step markup t = Some el.
Proof.
  unfold extract_elements. rewrite extract_loop_spec. simpl.
  rewrite in_flat_map. split; intros (t & Ht & H); exists t; split; auto.
  - destruct (extract_step markup t) as [el'|]; [|contradiction].
    destruct H as [->|[]]. reflexivity.
  - rewrite H. now left.
Qed.

End ExtractorFacts.

(** ** Claims on the fragment extractor *)

(** C4: every fragment emitted by the extractor has a non-empty text with
    at least 5 whitespace tokens. *)
Theorem extract_token_floor (markup : node -> string) (soup : node) :
  Forall (fun el => text el <> EmptyString /\ (5 <= token_total el)%Z)
    (extract_elements markup soup).
Proof.
  apply Forall_forall. intros el Hel.
  apply extract_elements_in in Hel as (t & _ & Hstep).
  apply extract_step_some in Hstep as (_ & Htext & Hfloor & ->).
  unfold token_total. simpl. split; [|exact Hfloor].
  intros Hempty. rewrite Hempty in Htext. discriminate.
Qed.

(** C5: no fragment is emitted for a tag whose name is blacklisted, and a
    tag below a visited blacklisted tag is emitted as a fragment of its own
    whenever its name is not blacklisted and its text has at least 5
    tokens. *)
Theorem extract_blacklist_no_pruning (markup : node -> string) (soup : node) :
  (forall t, In t (find_all (body_or_soup soup)) ->
             name_in blacklist (tag_name t) = true ->
             extract_step markup t = None) /\
  Forall (fun el => name_in blacklist (tag el) = false)
    (extract_elements markup soup) /\
  (forall b t,
      In b (find_all (body_or_soup soup)) ->
      name_in blacklist (tag_name b) = true ->
      In t (find_all b) ->
      name_in blacklist (tag_name t) = false ->
      (5 <= len (split (get_text " " t)))%Z ->
      In (fragment_of markup t) (extract_elements markup soup)).
Proof.
  split; [|split].
  - intros t _ Hname. unfold extract_step. now rewrite Hname.
  - apply Forall_forall. intros el Hel.
    apply extract_elements_in in Hel as (t & _ & Hstep).
    now apply extract_step_some in Hstep as (Hname & _ & _ & ->).
  - intros b t Hb _ Ht Hname Hfloor.
    apply extract_elements_in. exists t. split.
    + now apply find_all_trans with (b := b).
    + now apply extract_step_keeps.
Qed.

Lemma extract_blacklist_no_pruning_witness :
  In sample_nav (find_all (body_or_soup sample_soup)) /\
  name_in blacklist (tag_name sample_nav) = true /\
  In sample_paragraph (find_all sample_nav) /\
  name_in blacklist (tag_name sample_paragraph) = false /\
  (5 <= len (split (get_text " " sample_paragraph)))%Z /\
  In (fragment_of sample_markup sample_paragraph)
    (extract_elements sample_markup sample_soup).
Proof.
  assert (Hb : In sample_nav (find_all (body_or_soup sample_soup)))
    by (vm_compute; auto).
  assert (Ht : In sample_paragraph (find_all sample_nav)) by (vm_compute; auto).
  assert (Hfloor : (5 <= len (split (get_text " " sample_paragraph)))%Z)
    by (vm_compute; discriminate).
  repeat split; try assumption.
  exact (proj2 (proj2 (extract_blacklist_no_pruning sample_markup sample_soup))
           sample_nav sample_paragraph Hb eq_refl Ht eq_refl Hfloor).
Defined.

(** ** Request handler: input validation and the empty page *)

Lemma missing_or_empty_falsy (d : dict) (k : string) :
  missing_or_empty d k -> truthy (dict_get d k JNull) = false.
Proof. unfold dict_get. intros [-> | ->]; reflexivity. Qed.

(** A falsy [url] or [query] is answered before the [try] block is
    entered. *)
Lemma search_content_falsy (E : env) (d : dict) (w : world) :
  truthy (dict_get d "url" JNull) = false \/
  truthy (dict_get d "query" JNull) = false ->
  search_content E (JObj d) w = (inr client_error, w).
Proof.
  intros H. unfold search_content.
  destruct H as [-> | ->]; simpl; [reflexivity|].
  now rewrite orb_true_r.
Qed.

(** The handler on a well-formed body is the [try] block. *)
Lemma search_content_valid (E : env) (d : dict) :
  truthy (dict_get d "url" JNull) = true ->
  truthy (dict_get d "query" JNull) = true ->
  search_content E (JObj d)
  = try_except
      (search_body E (dict_get d "url" JNull) (dict_get d "query" JNull))
      (fun e => log (EvPrint ("Error: " ++ exn_str e)) ;;; ret (server_error e)).
Proof. intros Hu Hq. unfold search_content. now rewrite Hu, Hq. Qed.

(** The [try] block up to the test [if not elements]. *)
Lemma search_body_empty (E : env) (url query_text : json) (w : world)
  (content : string) (soup : node) :
  requests_get E url = inr content ->
  html_parser E content = inr soup ->
  page_chunks E soup = [] ->
  search_body E url query_text w = (inr empty_results, fetched url w).
Proof.
  intros Hget Hparse Hchunks. unfold search_body, bind, lift, log.
  rewrite Hget, Hparse. fold (page_chunks E soup). now rewrite Hchunks.
Qed.

(** A body that is a JSON object in which [url] or [query] is missing or
    empty is answered with status 400 and the client-input error object,
    and the world is left as it was: no fetch, no call to the index. *)
Theorem missing_field_rejected (E : env) (d : dict) (w : world) :
  missing_or_empty d "url" \/ missing_or_empty d "query" ->
  search_content E (JObj d) w = (inr client_error, w) /\
  status client_error = 400%Z /\
  body client_error = JObj [("error", JStr "URL and Query are required")].
Proof.
  intros H. split; [|split; reflexivity].
  apply search_content_falsy.
  destruct H as [H|H]; [left|right]; now apply missing_or_empty_falsy.
Qed.

(** ** The index engine's table *)

Lemma absent_stored_in name (docs : list stored) cs :
  existsb (fun c : string * list stored => String.eqb name (fst c)) cs = false ->
  stored_in name (cs ++ [(name, docs)]) = Some docs.
Proof.
  induction cs as [|[n ds] cs IH]; simpl; intros H.
  - now rewrite String.eqb_refl.
  - apply orb_false_iff in H as [Hn H]. rewrite Hn. now apply IH.
Qed.

Lemma absent_store_in name docs new cs :
  existsb (fun c : string * list stored => String.eqb name (fst c)) cs = false ->
  store_in name new (cs ++ [(name, docs)]) = cs ++ [(name, docs ++ new)].
Proof.
  induction cs as [|[n ds] cs IH]; simpl; intros H.
  - now rewrite String.eqb_refl.
  - apply orb_false_iff in H as [Hn H]. rewrite Hn. now rewrite IH.
Qed.

Lemma absent_drop name docs cs :
  existsb (fun c : string * list stored => String.eqb name (fst c)) cs = false ->
  drop_collection name (cs ++ [(name, docs)]) = cs.
Proof.
  unfold drop_collection. induction cs as [|[n ds] cs IH]; simpl; intros H.
  - now rewrite String.eqb_refl.
  - apply orb_false_iff in H as [Hn H]. rewrite Hn. simpl. now rewrite IH.
Qed.

Lemma present_after_create name docs cs :
  existsb (fun c : string * list stored => String.eqb name (fst c)) (cs ++ [(name, docs)]) = true.
Proof.
  rewrite existsb_app. simpl. rewrite String.eqb_refl. now rewrite orb_true_r.
Qed.

(** ** Populating the collection *)

Lemma index_app_here {A} (pre l : list A) (x : A) :
  index (pre ++ x :: l) (List.length pre) = inr x.
Proof.
  unfold index. rewrite nth_error_app2 by lia. now rewrite Nat.sub_diag.
Qed.

Lemma index_map_here {A B} (f : A -> B) (pre l : list A) (x : A) :
  index (map f (pre ++ x :: l)) (List.length pre) = inr (f x).
Proof.
  rewrite map_app. simpl map. rewrite <- (length_map f pre).
  apply index_app_here.
Qed.

(** The metadata comprehension never raises; it yields the metadata of the
    chunks in order. *)
Lemma metadata_comprehension (url : json) (l : list element) :
  forall pre,
    comprehension
      (fun i =>
         and_then (index (pre ++ l) i) (fun el =>
         and_then (index (map html (pre ++ l)) i) (fun h =>
         inr [("source", url);
              ("index", JNum (inject_Z (Z.of_nat i)));
              ("tag", JStr (tag el));
              ("html", JStr h)])))
      (seq (List.length pre) (List.length l))
    = inr (map (fun ic => chunk_metadata url (fst ic) (snd ic))
             (numbered (List.length pre) l)).
Proof.
  induction l as [|c l IH]; intros pre; [reflexivity|].
  unfold numbered. simpl seq. simpl combine. simpl map. simpl comprehension.
  rewrite index_app_here, index_map_here. simpl and_then.
  specialize (IH (pre ++ [c])). rewrite <- app_assoc in IH. simpl app in IH.
  rewrite length_app in IH. simpl in IH. rewrite Nat.add_1_r in IH.
  unfold numbered in IH.
  now rewrite IH.
Qed.

Lemma zip3_numbered (url : json) (l : list element) :
  forall k,
    zip3 (map str_of_nat (seq k (List.length l))) (map text l)
      (map (fun ic => chunk_metadata url (fst ic) (snd ic)) (numbered k l))
    = map (chunk_stored url) (numbered k l).
Proof.
  induction l as [|c l IH]; intros k; [reflexivity|].
  unfold numbered in *. simpl. now rewrite IH.
Qed.

(** ** The four calls to the index engine *)

Lemma create_collection_run (E : env) (name : string) (w : world) :
  create_collection E name w
  = match create_fault E name with
    | Some e => (inl e, logged (EvCreate name) w)
    | None =>
        if has_collection name w
        then (inl (Exception "UniqueConstraintError"
                     ("Collection " ++ name ++ " already exists")),
              logged (EvCreate name) w)
        else (inr tt, {| collections := collections w ++ [(name, [])];
                         trace := trace w ++ [EvCreate name] |})
    end.
Proof.
  unfold create_collection, bind, log, raise.
  destruct (create_fault E name); [reflexivity|].
  unfold has_collection. simpl. now destruct (existsb _ _).
Qed.

Lemma collection_add_run (E : env) (name : string) (documents ids : list string)
  (metas : list dict) (w : world) :
  has_collection name w = true ->
  collection_add E name documents ids metas w
  = match add_fault E name (zip3 ids documents metas) with
    | Some e => (inl e, logged (EvAdd name) w)
    | None =>
        (inr tt, {| collections := store_in name (zip3 ids documents metas)
                                     (collections w);
                    trace := trace w ++ [EvAdd name] |})
    end.
Proof.
  intros Hw. unfold collection_add, bind, log, raise.
  destruct (add_fault E name _); [reflexivity|].
  unfold has_collection in *. simpl. now rewrite Hw.
Qed.

Lemma collection_query_run (E : env) (name : string) (q : json) (k : Z)
  (w : world) (docs : list stored) :
  stored_in name (collections w) = Some docs ->
  collection_query E name q k w
  = (knn_query E docs q k, logged (EvQuery name) w).
Proof.
  intros Hw. unfold collection_query, bind, log. simpl. now rewrite Hw.
Qed.

Lemma delete_collection_run (E : env) (name : string) (w : world) :
  has_collection name w = true ->
  delete_collection E name w
  = match delete_fault E name with
    | Some e => (inl e, logged (EvDelete name) w)
    | None =>
        (inr tt, {| collections := drop_collection name (collections w);
                    trace := trace w ++ [EvDelete name] |})
    end.
Proof.
  intros Hw. unfold delete_collection, bind, log, raise.
  destruct (delete_fault E name); [reflexivity|].
  unfold has_collection in *. simpl. now rewrite Hw.
Qed.

(** ** The [try] block on a page with chunks *)

Lemma metadata_comprehension_all (url : json) (chunks : list element) :
  comprehension
    (fun i =>
       and_then (index chunks i) (fun el =>
       and_then (index (map html chunks) i) (fun h =>
       inr [("source", url);
            ("index", JNum (inject_Z (Z.of_nat i)));
            ("tag", JStr (tag el));
            ("html", JStr h)])))
    (seq 0 (List.length chunks))
  = inr (map (fun ic => chunk_metadata url (fst ic) (snd ic)) (numbered 0 chunks)).
Proof. exact (metadata_comprehension url chunks []). Qed.

(** The block on a page with chunks, for a collection name that is new to
    the engine: creation, population, query, and what follows the query. *)
Lemma index_and_query_run (E : env) (url q : json) (chunks : list element)
  (w : world) :
  let name := request_collection E in
  has_collection name w = false ->
  index_and_query E url q chunks w
  = match create_fault E name with
    | Some e => (inl e, logged (EvCreate name) w)
    | None =>
    match add_fault E name (indexed_chunks url chunks) with
    | Some e =>
        (inl e, {| collections := collections w ++ [(name, [])];
                   trace := trace w ++ [EvCreate name; EvAdd name] |})
    | None =>
    match knn_query E (indexed_chunks url chunks) q (Z.min 10 (len chunks)) with
    | inl e =>
        (inl e, {| collections := collections w ++ [(name, indexed_chunks url chunks)];
                   trace := trace w ++ [EvCreate name; EvAdd name; EvQuery name] |})
    | inr results =>
    match delete_fault E name with
    | Some e =>
        (inl e, {| collections := collections w ++ [(name, indexed_chunks url chunks)];
                   trace := trace w ++ [EvCreate name; EvAdd name; EvQuery name;
                                        EvDelete name] |})
    | None =>
        (match format_results results with
         | inl e => inl e
         | inr rs => inr {| status := 200; body := JObj [("results", JArr rs)] |}
         end,
         {| collections := collections w;
            trace := trace w ++ [EvCreate name; EvAdd name; EvQuery name;
                                 EvDelete name] |})
    end end end end.
Proof.
  unfold index_and_query. fold (request_collection E).
  generalize (request_collection E). intros name Hfresh.
  unfold bind at 1. rewrite create_collection_run, Hfresh.
  destruct (create_fault E name) as [e|]; [reflexivity|].
  unfold has_collection in Hfresh.
  unfold bind at 1. unfold lift at 1.
  rewrite length_map. unfold range. rewrite metadata_comprehension_all.
  unfold bind at 1.
  rewrite collection_add_run
    by (unfold has_collection; cbn [collections]; apply present_after_create).
  rewrite zip3_numbered. fold (indexed_chunks url chunks).
  destruct (add_fault E name (indexed_chunks url chunks)) as [e|].
  { unfold logged. cbn [collections trace]. now rewrite <- app_assoc. }
  cbn [collections trace]. rewrite absent_store_in by exact Hfresh.
  cbn [app]. unfold bind at 1.
  rewrite (collection_query_run E name q _ _ (indexed_chunks url chunks))
    by (cbn [collections]; now apply absent_stored_in).
  unfold len at 1. rewrite length_map. fold (len chunks).
  destruct (knn_query E (indexed_chunks url chunks) q (Z.min 10 (len chunks)))
    as [e|results].
  { unfold logged. cbn [collections trace]. now rewrite <- !app_assoc. }
  unfold bind at 1.
  rewrite delete_collection_run
    by (unfold has_collection, logged; cbn [collections]; apply present_after_create).
  destruct (delete_fault E name) as [e|].
  { unfold logged. cbn [collections trace]. now rewrite <- !app_assoc. }
  unfold logged. cbn [collections trace]. rewrite absent_drop by exact Hfresh.
  unfold bind, lift, ret. rewrite <- !app_assoc. cbn [app].
  now destruct (format_results results).
Qed.

(** ** Response formatting *)















(** With documents only, every record has empty [html] and [tag] and
    score 0; with one metadata entry for three documents, the first
    record carries it and the other two are empty. *)
Example format_defaults_run :
  format_results sample_bare_answer
  = inr [formatted "first chunk" [] 0; formatted "second chunk" [] 0] /\
  format_results sample_answer
  = inr [formatted "first chunk"
           [("html", JStr "<p>first chunk</p>"); ("tag", JStr "div")] 0;
         formatted "second chunk" [] 0; formatted "third chunk" [] 0].
Proof. split; reflexivity. Qed.

(** ** Request handler: outcomes *)

(** An exception of the [try] block becomes a 500 response, after one
    printed line. *)
Lemma search_content_caught (E : env) (d : dict) (w w1 : world) (e : exn) :
  truthy (dict_get d "url" JNull) = true ->
  truthy (dict_get d "query" JNull) = true ->
  search_body E (dict_get d "url" JNull) (dict_get d "query" JNull) w = (inl e, w1) ->
  search_content E (JObj d) w
  = (inr (server_error e), logged (EvPrint ("Error: " ++ exn_str e)) w1).
Proof.
  intros Hu Hq Hbody. rewrite search_content_valid by assumption.
  unfold try_except. now rewrite Hbody.
Qed.

Lemma search_content_returned (E : env) (d : dict) (w w1 : world) (resp : response) :
  truthy (dict_get d "url" JNull) = true ->
  truthy (dict_get d "query" JNull) = true ->
  search_body E (dict_get d "url" JNull) (dict_get d "query" JNull) w = (inr resp, w1) ->
  search_content E (JObj d) w = (inr resp, w1).
Proof.
  intros Hu Hq Hbody. rewrite search_content_valid by assumption.
  unfold try_except. now rewrite Hbody.
Qed.

(** A 200 response comes out of the [try] block. *)
Lemma search_content_ok (E : env) (d : dict) (w w1 : world) (resp : response) :
  search_content E (JObj d) w = (inr resp, w1) ->
  status resp = 200%Z ->
  search_body E (dict_get d "url" JNull) (dict_get d "query" JNull) w = (inr resp, w1).
Proof.
  intros Hrun Hstatus.
  destruct (truthy (dict_get d "url" JNull)) eqn:Hu.
  2:{ rewrite search_content_falsy in Hrun by (now left).
      inversion Hrun; subst. discriminate. }
  destruct (truthy (dict_get d "query" JNull)) eqn:Hq.
  2:{ rewrite search_content_falsy in Hrun by (now right).
      inversion Hrun; subst. discriminate. }
  destruct (search_body E (dict_get d "url" JNull) (dict_get d "query" JNull) w)
    as [[e|resp'] w2] eqn:Hbody.
  - rewrite (search_content_caught E d w w2 e Hu Hq Hbody) in Hrun.
    inversion Hrun; subst. discriminate.
  - rewrite (search_content_returned E d w w2 resp' Hu Hq Hbody) in Hrun.
    now inversion Hrun.
Qed.

(** The [try] block on a page with chunks. *)
Lemma search_body_chunks (E : env) (url q : json) (w : world)
  (content : string) (soup : node) :
  requests_get E url = inr content ->
  html_parser E content = inr soup ->
  page_chunks E soup <> [] ->
  search_body E url q w = index_and_query E url q (page_chunks E soup) (fetched url w).
Proof.
  intros Hget Hparse Hchunks. unfold search_body, bind, lift, log.
  rewrite Hget, Hparse. fold (page_chunks E soup).
  destruct (page_chunks E soup); [congruence | reflexivity].
Qed.

(** What a successful run of the [try] block went through. *)
Lemma search_body_success (E : env) (url q : json) (w w' : world) (resp : response) :
  search_body E url q w = (inr resp, w') ->
  exists content soup,
    requests_get E url = inr content /\
    html_parser E content = inr soup /\
    ((page_chunks E soup = [] /\ resp = empty_results /\ w' = fetched url w) \/
     exists r rs,
       knn_query E (indexed_chunks url (page_chunks E soup)) q
         (Z.min 10 (len (page_chunks E soup))) = inr r /\
       format_results r = inr rs /\
       resp = {| status := 200; body := JObj [("results", JArr rs)] |} /\
       collections w' = collections w /\
       trace w' = trace w ++ calls_to_query url (request_collection E)
                          ++ [EvDelete (request_collection E)]).
Proof.
  intros H.
  destruct (requests_get E url) as [e|content] eqn:Hget.
  { unfold search_body, bind, lift, log in H. rewrite Hget in H. discriminate. }
  destruct (html_parser E content) as [e|soup] eqn:Hparse.
  { unfold search_body, bind, lift, log in H. rewrite Hget, Hparse in H.
    discriminate. }
  exists content, soup. split; [reflexivity|]. split; [exact Hparse|].
  destruct (page_chunks E soup) as [|c cs] eqn:Hchunks.
  { left. rewrite (search_body_empty E url q w content soup Hget Hparse Hchunks) in H.
    inversion H. auto. }
  right. rewrite <- Hchunks in *.
  assert (Hne : page_chunks E soup <> []) by (rewrite Hchunks; discriminate).
  rewrite (search_body_chunks E url q w content soup Hget Hparse Hne) in H.
  destruct (has_collection (request_collection E) (fetched url w)) eqn:Hfresh.
  { unfold index_and_query in H. fold (request_collection E) in H.
    unfold bind at 1 in H. rewrite create_collection_run, Hfresh in H.
    destruct (create_fault E (request_collection E)); discriminate. }
  rewrite (index_and_query_run E url q _ _ Hfresh) in H.
  destruct (create_fault E (request_collection E)); [discriminate|].
  destruct (add_fault E _ _); [discriminate|].
  destruct (knn_query E _ q _) as [e|r]; [discriminate|].
  destruct (delete_fault E _); [discriminate|].
  destruct (format_results r) as [e|rs] eqn:Hformat; [discriminate|].
  exists r, rs. inversion H. unfold fetched, calls_to_query. simpl.
  repeat split; [exact Hformat | now rewrite <- app_assoc].
Qed.

(** The [except] branch does not call [delete_collection]: for a
    collection name that is new to the engine, a query that raises leaves
    the populated collection in the engine's table. *)
Lemma query_failure_leaks (E : env) (d : dict) (w : world)
  (content : string) (soup : node) (e : exn) :
  let url := dict_get d "url" JNull in
  let name := request_collection E in
  truthy url = true ->
  truthy (dict_get d "query" JNull) = true ->
  requests_get E url = inr content ->
  html_parser E content = inr soup ->
  page_chunks E soup <> [] ->
  has_collection name w = false ->
  create_fault E name = None ->
  add_fault E name (indexed_chunks url (page_chunks E soup)) = None ->
  knn_query E (indexed_chunks url (page_chunks E soup)) (dict_get d "query" JNull)
    (Z.min 10 (len (page_chunks E soup))) = inl e ->
  search_content E (JObj d) w
  = (inr (server_error e),
     {| collections :=
          collections w ++ [(name, indexed_chunks url (page_chunks E soup))];
        trace := trace w ++ calls_to_query url name
                         ++ [EvPrint ("Error: " ++ exn_str e)] |}).
Proof.
  intros url name Hu Hq Hget Hparse Hchunks Hfresh Hcreate Hadd Hquery.
  rewrite (search_content_caught E d w
             {| collections :=
                  collections w ++ [(name, indexed_chunks url (page_chunks E soup))];
                trace := trace w ++ calls_to_query url name |} e Hu Hq).
  - unfold logged. cbn [collections trace]. now rewrite <- app_assoc.
  - fold url. rewrite (search_body_chunks E url _ w content soup Hget Hparse Hchunks).
    rewrite index_and_query_run by exact Hfresh.
    fold name. rewrite Hcreate, Hadd, Hquery.
    unfold fetched, calls_to_query. cbn [collections trace].
    now rewrite <- app_assoc.
Qed.

(** ** Claims on the request handler *)

(** C1 fails on the code: with a query that raises, the handler answers 500
    and the request's collection is still in the engine; the calls made
    are fetch, create, add, query and the printed line, and no delete. *)
Theorem index_leaks_when_query_fails :
  let E := sample_env sample_page embedding_down in
  let name := request_collection E in
  exists w',
    search_content E (JObj sample_request) idle
    = (inr (server_error (Exception "RuntimeError" "embedding failed")), w') /\
    has_collection name w' = true /\
    trace w' = calls_to_query sample_url name
               ++ [EvPrint "Error: embedding failed"] /\
    ~ In (EvDelete name) (trace w').
Proof.
  intros E name. eexists. split; [vm_compute; reflexivity|].
  split; [reflexivity|]. split; [reflexivity|].
  cbn [trace]. intros H.
  repeat (destruct H as [H|H]; [discriminate H|]). exact H.
Qed.

(** C6: when the fetched page yields no chunk, the handler answers 200 with
    an empty result list; the only call made is the fetch, and the
    engine's table of collections is unchanged. *)
Theorem empty_page_no_index (E : env) (d : dict) (w : world)
  (content : string) (soup : node) :
  truthy (dict_get d "url" JNull) = true ->
  truthy (dict_get d "query" JNull) = true ->
  requests_get E (dict_get d "url" JNull) = inr content ->
  html_parser E content = inr soup ->
  page_chunks E soup = [] ->
  exists w',
    search_content E (JObj d) w = (inr empty_results, w') /\
    status empty_results = 200%Z /\
    body empty_results = JObj [("results", JArr [])] /\
    collections w' = collections w /\
    trace w' = trace w ++ [EvGet (dict_get d "url" JNull)].
Proof.
  intros Hu Hq Hget Hparse Hchunks.
  exists (fetched (dict_get d "url" JNull) w).
  split; [|repeat split].
  apply search_content_returned; try assumption.
  now apply search_body_empty with (content := content) (soup := soup).
Qed.

Lemma empty_page_no_index_witness :
  exists w',
    search_content (sample_env sample_soup first_k) (JObj sample_request) idle
    = (inr empty_results, w') /\
    status empty_results = 200%Z /\
    body empty_results = JObj [("results", JArr [])] /\
    collections w' = collections idle /\
    trace w' = trace idle ++ [EvGet sample_url].
Proof.
  exact (empty_page_no_index (sample_env sample_soup first_k) sample_request idle
           "<html>...</html>" sample_soup
           eq_refl eq_refl eq_refl eq_refl eq_refl).
Defined.

(** C7 fails on the code for a body that is not a JSON object: a list or
    null has no [url] either, but [data.get] raises AttributeError before
    the test that answers 400, outside the [try] block, and the exception
    leaves the handler. *)
Theorem non_object_body_raises :
  let E := sample_env sample_page first_k in
  search_content E (JArr []) idle
  = (inl (Exception "AttributeError" "object has no attribute 'get'"), idle) /\
  search_content E JNull idle
  = (inl (Exception "AttributeError" "object has no attribute 'get'"), idle) /\
  forall w', search_content E (JArr []) idle <> (inr client_error, w').
Proof.
  intros E. split; [reflexivity|]. split; [reflexivity|].
  intros w' H. discriminate H.
Qed.

Lemma missing_field_rejected_witness :
  missing_or_empty [("query", JStr "six words")] "url" /\
  search_content (sample_env sample_page first_k)
    (JObj [("query", JStr "six words")]) idle
  = (inr client_error, idle).
Proof.
  assert (H : missing_or_empty [("query", JStr "six words")] "url")
    by (left; reflexivity).
  split; [exact H|].
  exact (proj1 (missing_field_rejected (sample_env sample_page first_k)
                  [("query", JStr "six words")] idle (or_introl H))).
Defined.

(** ** Ranked results *)












(** ** The samples, run *)

(** Two fragments that fit the budget together, one that is over budget by
    itself, and a last one. *)
Example sample_chunks :
  map text (chunk_elements_by_tokens sample_fragments 5)
  = ["alpha beta gamma delta epsilon"; "one two three four five six";
     "delta epsilon"].
Proof. reflexivity. Qed.

(** A page with one paragraph of six words: one fragment, one chunk, one
    result, and the collection is gone when the handler returns. *)
Example sample_search :
  search_content (sample_env sample_page first_k) (JObj sample_request) idle
  = (inr {| status := 200;
            body := JObj [("results",
                           JArr [JObj [("text", JStr "one two three four five six");
                                       ("html", JStr "<p>");
                                       ("tag", JStr "div");
                                       ("score", JNum 0)]])] |},
     {| collections := [];
        trace := calls_to_query sample_url "search_1f0e"
                 ++ [EvDelete "search_1f0e"] |}).
Proof. vm_compute. reflexivity. Qed.

(** A body that is not a JSON object makes [data.get] raise before the
    [try] block. *)
Example sample_not_an_object :
  exists e, search_content (sample_env sample_page first_k) (JArr []) idle
            = (inl e, idle).
Proof. eexists. reflexivity. Qed.

(* ================================================================== *)
(** * Further properties *)
(* ================================================================== *)

(** ** Chunk assembler: the runs *)

(** The loop on strings follows the loop on runs. *)
Lemma chunk_step_runs (max_tokens : Z) (p : list (list element) * list element)
  (el : element) :
  chunk_step max_tokens (runs_state p) el = runs_state (runs_step max_tokens p el).
Proof.
  destruct p as [gs cur].
  unfold chunk_step, runs_step, has_tokens, runs_state.
  cbn [fst snd chunks current_tokens current_html token_count].
  change (split (text el)) with (tokens_of el).
  destruct (list_truthy (tokens_of el)); cbn [negb]; [|reflexivity].
  destruct ((run_tokens cur + len (tokens_of el) >? max_tokens)%Z
            && list_truthy (flat_map tokens_of cur))%bool;
    cbn [fst snd chunks current_tokens current_html token_count].
  - unfold flushed, chunk_of, run_tokens.
    cbn [chunks current_tokens current_html token_count].
    rewrite map_app. simpl. now rewrite app_nil_r.
  - unfold run_tokens. rewrite flat_map_app, map_app, len_app. simpl.
    now rewrite app_nil_r.
Qed.

Lemma chunk_loop_runs (max_tokens : Z) (elements : list element) :
  forall p,
    fold_left (chunk_step max_tokens) elements (runs_state p)
    = runs_state (fold_left (runs_step max_tokens) elements p).
Proof.
  induction elements as [|el elements IH]; intros p; [reflexivity|].
  simpl. now rewrite chunk_step_runs, IH.
Qed.

(** The chunks are the chunks of the runs. *)
Lemma chunk_runs_spec (elements : list element) (max_tokens : Z) :
  chunk_elements_by_tokens elements max_tokens
  = map chunk_of (chunk_runs elements max_tokens).
Proof.
  unfold chunk_elements_by_tokens, chunk_runs.
  change chunker_init with (runs_state ([], [])).
  rewrite chunk_loop_runs.
  destruct (fold_left (runs_step max_tokens) elements ([], [])) as [gs cur].
  simpl. destruct (list_truthy (flat_map tokens_of cur)); [|reflexivity].
  now rewrite map_app.
Qed.

Lemma greedy_grow (max_tokens : Z) (cur : list element) (el : element) :
  forall gs,
    cur <> [] ->
    greedy max_tokens (gs ++ [cur]) -> greedy max_tokens (gs ++ [cur ++ [el]]).
Proof.
  induction gs as [|g gs IH]; intros Hcur H; [exact I|].
  destruct gs as [|g' gs].
  - simpl in *. destruct H as [(el0 & more & -> & Hover) _].
    split; [|exact I]. exists el0, (more ++ [el]). now split.
  - simpl in H. destruct H as [Hhead Hrest].
    change (greedy max_tokens (g :: g' :: (gs ++ [cur ++ [el]]))).
    simpl. split; [exact Hhead|]. now apply (IH Hcur).
Qed.

Lemma greedy_close (max_tokens : Z) (cur : list element) (el : element) :
  forall gs,
    (max_tokens < run_tokens cur + len (tokens_of el))%Z ->
    greedy max_tokens (gs ++ [cur]) ->
    greedy max_tokens ((gs ++ [cur]) ++ [[el]]).
Proof.
  induction gs as [|g gs IH]; intros Hover H.
  - simpl. split; [|exact I]. now exists el, [].
  - destruct gs as [|g' gs].
    + simpl in *. destruct H as [Hhead _]. split; [exact Hhead|].
      split; [|exact I]. now exists el, [].
    + simpl in H. destruct H as [Hhead Hrest].
      change (greedy max_tokens (g :: g' :: ((gs ++ [cur]) ++ [[el]]))).
      simpl. split; [exact Hhead|]. now apply (IH Hover).
Qed.

Lemma greedy_adjacent (max_tokens : Z) (g1 g2 : list element)
  (post : list (list element)) :
  forall pre,
    greedy max_tokens (pre ++ g1 :: g2 :: post) ->
    exists el more, g2 = el :: more /\
                    (max_tokens < run_tokens g1 + len (tokens_of el))%Z.
Proof.
  induction pre as [|g pre IH]; intros H.
  - simpl in H. exact (proj1 H).
  - apply IH. destruct pre; simpl in H; exact (proj2 H).
Qed.

(** Fragments of the runs have tokens. *)
Lemma runs_inv_tokens max_tokens seen p :
  runs_inv max_tokens seen p ->
  Forall (fun el => has_tokens el = true) (snd p).
Proof.
  intros H. apply Forall_forall. intros el Hel.
  assert (Hin : In el (filter has_tokens seen)).
  { rewrite <- (runs_seen _ _ _ H). apply in_or_app. now right. }
  now apply filter_In in Hin.
Qed.

Lemma run_truthy (cur : list element) :
  Forall (fun el => has_tokens el = true) cur ->
  list_truthy (flat_map tokens_of cur) = list_truthy cur.
Proof.
  intros H. destruct cur as [|el cur]; [reflexivity|].
  inversion H as [|? ? Hel _]; subst. unfold has_tokens in Hel. simpl.
  destruct (tokens_of el); [discriminate | reflexivity].
Qed.

Lemma runs_step_inv max_tokens seen p el :
  runs_inv max_tokens seen p ->
  runs_inv max_tokens (seen ++ [el]) (runs_step max_tokens p el).
Proof.
  intros H. pose proof (runs_inv_tokens _ _ _ H) as Htok.
  destruct p as [gs cur]. unfold runs_step. simpl in *.
  destruct (has_tokens el) eqn:Hel; simpl.
  2:{ destruct H as [Hseen Hstart Hgreedy]. constructor; simpl in *; auto.
      rewrite filter_app. simpl. rewrite Hel. now rewrite app_nil_r. }
  assert (Hfilter : filter has_tokens (seen ++ [el]) = filter has_tokens seen ++ [el])
    by (rewrite filter_app; simpl; now rewrite Hel).
  rewrite (run_truthy cur Htok).
  destruct ((run_tokens cur + len (tokens_of el) >? max_tokens)%Z
            && list_truthy cur)%bool eqn:Hflush.
  - apply andb_prop in Hflush as [Hover Hne]. apply Z.gtb_lt in Hover.
    assert (Hcur : cur <> []) by (destruct cur; [discriminate | discriminate]).
    constructor; simpl.
    + rewrite Hfilter, <- (runs_seen _ _ _ H), concat_app. simpl.
      now rewrite app_nil_r.
    + discriminate.
    + intros _. apply greedy_close; [lia|]. exact (runs_greedy _ _ _ H Hcur).
  - constructor; simpl.
    + rewrite Hfilter, <- (runs_seen _ _ _ H). simpl. now rewrite app_assoc.
    + intros Habs. now destruct cur.
    + intros _. destruct cur as [|c cur].
      * pose proof (runs_start _ _ _ H eq_refl) as Hgs. simpl in Hgs.
        subst gs. exact I.
      * apply greedy_grow; [discriminate|].
        apply (runs_greedy _ _ _ H). discriminate.
Qed.

Lemma runs_loop_inv max_tokens elements :
  runs_inv max_tokens elements (fold_left (runs_step max_tokens) elements ([], [])).
Proof.
  induction elements as [|el elements IH] using rev_ind.
  - constructor; simpl; auto.
  - rewrite fold_left_app. simpl. now apply runs_step_inv.
Qed.

(** The runs partition the fragments that have tokens, in order, and no
    run could have taken the first fragment of the next one. *)
Lemma chunk_runs_greedy (elements : list element) (max_tokens : Z) :
  List.concat (chunk_runs elements max_tokens) = filter has_tokens elements /\
  greedy max_tokens (chunk_runs elements max_tokens).
Proof.
  pose proof (runs_loop_inv max_tokens elements) as H.
  pose proof (runs_inv_tokens _ _ _ H) as Htok.
  unfold chunk_runs.
  destruct (fold_left (runs_step max_tokens) elements ([], [])) as [gs cur].
  simpl in *. rewrite (run_truthy cur Htok).
  destruct cur as [|c cur]; simpl.
  - pose proof (runs_start _ _ _ H eq_refl) as Hgs. simpl in Hgs. subst gs.
    split; [|exact I]. rewrite <- (runs_seen _ _ _ H). reflexivity.
  - split.
    + rewrite concat_app. simpl. rewrite app_nil_r. exact (runs_seen _ _ _ H).
    + apply (runs_greedy _ _ _ H). discriminate.
Qed.

(** ** Chunk assembler: further properties *)

Lemma token_total_chunk_of (g : list element) :
  token_total (chunk_of g) = run_tokens g.
Proof. unfold token_total, run_tokens. now rewrite chunk_of_tokens. Qed.

Lemma has_tokens_len (el : element) :
  has_tokens el = true -> (1 <= len (tokens_of el))%Z.
Proof.
  unfold has_tokens, len. destruct (tokens_of el); [discriminate|]. simpl. lia.
Qed.

(** A run of token-bearing fragments that is not empty has a token. *)
Lemma run_tokens_pos (g : list element) :
  g <> [] -> Forall (fun el => has_tokens el = true) g -> (1 <= run_tokens g)%Z.
Proof.
  intros Hne Hall. destruct g as [|el g]; [congruence|].
  inversion Hall as [|? ? Hel _]; subst.
  pose proof (has_tokens_len el Hel).
  pose proof (len_tokens_in (el :: g) el (or_introl eq_refl)).
  unfold run_tokens. lia.
Qed.

Lemma partition_tokens (groups : list (list element)) (elements : list element) :
  List.concat groups = filter has_tokens elements ->
  Forall (Forall (fun el => has_tokens el = true)) groups.
Proof.
  intros Hcat. apply Forall_forall. intros g Hg.
  apply Forall_forall. intros el Hel.
  assert (Hin : In el (filter has_tokens elements)).
  { rewrite <- Hcat. apply in_concat. now exists g. }
  now apply filter_In in Hin.
Qed.

Lemma text_of_tokens (s : string) : split s <> [] -> s <> EmptyString.
Proof. intros H ->. now apply H. Qed.

Lemma chunk_of_single (el : element) : chunk_of [el] = chunk_of_fragment el.
Proof.
  unfold chunk_of, chunk_of_fragment, tokens_of. simpl. now rewrite app_nil_r.
Qed.

Lemma singletons_concat (gs : list (list element)) :
  Forall (fun g => exists el, g = [el]) gs ->
  gs = map (fun el => [el]) (List.concat gs).
Proof.
  induction gs as [|g gs IH]; intros H; [reflexivity|].
  inversion H as [|? ? [el ->] Hgs]; subst. simpl. f_equal. now apply IH.
Qed.

Lemma concat_nil_nonempty (gs : list (list element)) :
  Forall (fun g => g <> []) gs -> List.concat gs = [] -> gs = [].
Proof.
  intros H Hcat. destruct gs as [|g gs]; [reflexivity|].
  inversion H as [|? ? Hg _]; subst. simpl in Hcat.
  apply app_eq_nil in Hcat as [Hnil _]. contradiction.
Qed.

Lemma filter_nil_iff (elements : list element) :
  filter has_tokens elements = [] <->
  Forall (fun el => split (text el) = []) elements.
Proof.
  induction elements as [|el elements IH]; simpl.
  - split; [constructor | reflexivity].
  - destruct (has_tokens el) eqn:Hel.
    + split; [discriminate|]. intros H. inversion H as [|? ? Hs _]; subst.
      unfold has_tokens, tokens_of in Hel. rewrite Hs in Hel. discriminate.
    + rewrite IH. split.
      * intros H. constructor; [|exact H]. now apply list_truthy_false.
      * intros H. now inversion H.
Qed.

(** X1: no chunk is empty: every chunk has at least one token and a
    non-empty text. *)
Theorem chunks_nonempty (elements : list element) (max_tokens : Z) :
  Forall (fun c => (1 <= token_total c)%Z /\ text c <> EmptyString)
    (chunk_elements_by_tokens elements max_tokens).
Proof.
  destruct (chunk_groups elements max_tokens) as (gs & -> & Hcat & Hok).
  pose proof (partition_tokens gs elements Hcat) as Htok.
  apply Forall_forall. intros c Hc. apply in_map_iff in Hc as (g & <- & Hg).
  rewrite Forall_forall in Hok, Htok.
  assert (Hpos : (1 <= token_total (chunk_of g))%Z).
  { rewrite token_total_chunk_of.
    apply run_tokens_pos; [exact (proj1 (Hok g Hg)) | exact (Htok g Hg)]. }
  split; [exact Hpos|]. apply text_of_tokens.
  unfold token_total, len in Hpos. destruct (split (text (chunk_of g)));
    [simpl in Hpos; lia | discriminate].
Qed.

(** X2: the assembler returns no chunk exactly when no fragment has a
    token (in particular on the empty list). *)
Theorem chunks_empty_iff (elements : list element) (max_tokens : Z) :
  chunk_elements_by_tokens elements max_tokens = [] <->
  Forall (fun el => split (text el) = []) elements.
Proof.
  destruct (chunk_groups elements max_tokens) as (gs & -> & Hcat & Hok).
  rewrite <- filter_nil_iff, <- Hcat. split.
  - intros H. apply map_eq_nil in H. now subst gs.
  - intros H. rewrite (concat_nil_nonempty gs); [reflexivity | | exact H].
    eapply Forall_impl; [|exact Hok]. now intros g [Hg _].
Qed.

(** X3: a chunk's text is its tokens joined by single spaces: whatever
    whitespace separated the words of the fragments, and any leading or
    trailing whitespace, is gone. *)
Theorem chunk_text_normalized (elements : list element) (max_tokens : Z) :
  Forall (fun c => text c = join " " (split (text c)) /\
                   Forall word (split (text c)))
    (chunk_elements_by_tokens elements max_tokens).
Proof.
  destruct (chunk_groups elements max_tokens) as (gs & -> & _).
  apply Forall_forall. intros c Hc. apply in_map_iff in Hc as (g & <- & _).
  split; [|apply split_words]. now rewrite chunk_of_tokens.
Qed.

(** X4: chunks are filled greedily.  The output is the list of chunks of
    [chunk_runs], a partition of the token-bearing fragments into
    consecutive runs; a run followed by another one could not take the
    next run's first fragment, so two adjacent chunks together always
    exceed the budget. *)
Theorem chunks_cannot_merge (elements : list element) (max_tokens : Z) :
  chunk_elements_by_tokens elements max_tokens
  = map chunk_of (chunk_runs elements max_tokens) /\
  List.concat (chunk_runs elements max_tokens) = filter has_tokens elements /\
  (forall pre g1 g2 post,
      chunk_runs elements max_tokens = pre ++ g1 :: g2 :: post ->
      exists el more, g2 = el :: more /\
                      (max_tokens < run_tokens g1 + token_total el)%Z) /\
  (forall pre c1 c2 post,
      chunk_elements_by_tokens elements max_tokens = pre ++ c1 :: c2 :: post ->
      (max_tokens < token_total c1 + token_total c2)%Z).
Proof.
  destruct (chunk_runs_greedy elements max_tokens) as [Hcat Hgreedy].
  split; [apply chunk_runs_spec|]. split; [exact Hcat|]. split.
  - intros pre g1 g2 post Hruns. rewrite Hruns in Hgreedy.
    exact (greedy_adjacent _ _ _ _ _ Hgreedy).
  - intros pre c1 c2 post Hchunks. rewrite chunk_runs_spec in Hchunks.
    apply map_eq_app in Hchunks as (rpre & rrest & Hruns & _ & Hrest).
    destruct rrest as [|g1 [|g2 rpost]]; try discriminate.
    simpl in Hrest. inversion Hrest; subst c1 c2.
    rewrite Hruns in Hgreedy.
    destruct (greedy_adjacent _ _ _ _ _ Hgreedy) as (el & more & -> & Hover).
    rewrite !token_total_chunk_of.
    pose proof (len_tokens_in (el :: more) el (or_introl eq_refl)).
    unfold run_tokens in *. lia.
Qed.

(** X5: with a budget below 1 nothing is merged: there is one chunk per
    token-bearing fragment, in order. *)
Theorem chunks_without_budget (elements : list element) (max_tokens : Z) :
  (max_tokens < 1)%Z ->
  chunk_elements_by_tokens elements max_tokens
  = map chunk_of_fragment (filter has_tokens elements).
Proof.
  intros Hmax. destruct (chunk_groups elements max_tokens) as (gs & -> & Hcat & Hok).
  pose proof (partition_tokens gs elements Hcat) as Htok.
  assert (Hsingle : Forall (fun g => exists el, g = [el]) gs).
  { rewrite Forall_forall in *. intros g Hg.
    destruct (Hok g Hg) as [Hne [Hfit|(el & -> & _)]]; [|now exists el].
    pose proof (run_tokens_pos g Hne (Htok g Hg)). unfold run_tokens in *. lia. }
  rewrite (singletons_concat gs Hsingle), Hcat, map_map.
  apply map_ext. intros el. apply chunk_of_single.
Qed.

Lemma chunks_without_budget_witness :
  (0 < 1)%Z /\
  chunk_elements_by_tokens [sample_p; sample_blank; sample_i] 0
  = map chunk_of_fragment (filter has_tokens [sample_p; sample_blank; sample_i]).
Proof.
  split; [lia|]. apply (chunks_without_budget [sample_p; sample_blank; sample_i] 0).
  lia.
Defined.

Lemma runs_fit (max_tokens : Z) (elements : list element) :
  (run_tokens (filter has_tokens elements) <= max_tokens)%Z ->
  fold_left (runs_step max_tokens) elements ([], [])
  = ([], filter has_tokens elements).
Proof.
  induction elements as [|el elements IH] using rev_ind; intros Hfit;
    [reflexivity|].
  rewrite fold_left_app, filter_app in *. simpl in *.
  unfold run_tokens in Hfit. rewrite flat_map_app, len_app in Hfit.
  rewrite IH
    by (unfold run_tokens;
        pose proof (len_nonneg (flat_map tokens_of
                                  (if has_tokens el then [el] else []))); lia).
  unfold runs_step. simpl. destruct (has_tokens el) eqn:Hel; simpl.
  - simpl in Hfit. rewrite app_nil_r in Hfit.
    replace (run_tokens (filter has_tokens elements) + len (tokens_of el)
             >? max_tokens)%Z with false
      by (rewrite Z.gtb_ltb; symmetry; apply Z.ltb_ge; unfold run_tokens; lia).
    reflexivity.
  - now rewrite app_nil_r.
Qed.

(** X6: when all the tokens of the input fit the budget, the output is one
    chunk holding every token-bearing fragment (no chunk when there is
    none). *)
Theorem chunks_single_when_fit (elements : list element) (max_tokens : Z) :
  (len (flat_map tokens_of elements) <= max_tokens)%Z ->
  chunk_elements_by_tokens elements max_tokens
  = match filter has_tokens elements with
    | [] => []
    | g => [chunk_of g]
    end.
Proof.
  intros Hfit. rewrite chunk_runs_spec. unfold chunk_runs.
  rewrite runs_fit by (unfold run_tokens; now rewrite tokens_of_filter).
  simpl. rewrite run_truthy.
  - now destruct (filter has_tokens elements).
  - apply Forall_forall. intros el Hel. now apply filter_In in Hel.
Qed.

Lemma chunks_single_when_fit_witness :
  (len (flat_map tokens_of sample_fragments) <= 500)%Z /\
  chunk_elements_by_tokens sample_fragments 500 = [chunk_of sample_fragments].
Proof.
  assert (H : (len (flat_map tokens_of sample_fragments) <= 500)%Z)
    by (vm_compute; discriminate).
  split; [exact H|]. exact (chunks_single_when_fit sample_fragments 500 H).
Defined.

(** ** Fragment extractor: further properties *)

Lemma split_aux_app_space (a b : string) :
  forall cur,
    split_aux (a ++ String " " b) cur = split_aux a cur ++ split b.
Proof.
  induction a as [|c a IH]; intros cur; simpl.
  - reflexivity.
  - destruct (is_space c); [|apply IH].
    now rewrite IH, app_assoc.
Qed.

(** Tokens of strings joined by a space: the tokens of each, in order. *)
Lemma split_join_strings (l : list string) :
  split (join " " l) = flat_map split l.
Proof.
  induction l as [|x l IH]; [reflexivity|].
  destruct l as [|y l].
  - simpl. now rewrite app_nil_r.
  - change (join " " (x :: y :: l))
      with (x ++ String " " (join " " (y :: l)))%string.
    unfold split at 1. rewrite split_aux_app_space. fold (split x).
    now rewrite IH.
Qed.

(** The string nodes of one kind below a tag under [p] are consecutive
    string nodes of that kind below [p]. *)
Lemma strings_below_sub (types : option string) (p : node) :
  forall t, In t (tag_and_descendants p) ->
            exists pre post,
              strings_below types p = pre ++ strings_below types t ++ post.
Proof.
  induction p as [s|s|owner s|nm attrs cs IH] using node_induction; intros t Ht;
    try contradiction.
  simpl in Ht. destruct Ht as [<-|Ht].
  - exists [], []. simpl. now rewrite app_nil_r.
  - apply in_flat_map in Ht as (c & Hc & Ht).
    rewrite Forall_forall in IH. destruct (IH c Hc t Ht) as (pre & post & Hsub).
    apply in_split in Hc as (l1 & l2 & ->).
    exists (flat_map (strings_below types) l1 ++ pre),
           (post ++ flat_map (strings_below types) l2).
    simpl. rewrite flat_map_app. simpl. rewrite Hsub.
    now rewrite <- !app_assoc.
Qed.

(** The tokens of a tag's text contain those of every tag below it that
    collects the same kind of strings. *)
Lemma get_text_tokens_sub (p t : node) :
  In t (tag_and_descendants p) ->
  interesting_string_types (tag_name p) = interesting_string_types (tag_name t) ->
  exists a b,
    split (get_text " " p) = a ++ split (get_text " " t) ++ b.
Proof.
  intros Ht Hkind.
  destruct (strings_below_sub (interesting_string_types (tag_name t)) p t Ht)
    as (pre & post & Hsub).
  unfold get_text. rewrite !split_join_strings, Hkind, Hsub.
  rewrite !map_app, !filter_app, !flat_map_app. eauto.
Qed.

Lemma extract_step_kept (markup : node -> string) (t : node) :
  extract_step markup t
  = if kept t then Some (fragment_of markup t) else None.
Proof.
  unfold kept. destruct (name_in blacklist (tag_name t)) eqn:Hname; simpl.
  - unfold extract_step. now rewrite Hname.
  - destruct (5 <=? len (split (get_text " " t)))%Z eqn:Hfloor.
    + apply Z.leb_le in Hfloor. now apply extract_step_keeps.
    + apply Z.leb_gt in Hfloor. unfold extract_step. rewrite Hname.
      destruct (str_truthy (get_text " " t)); [|reflexivity]. simpl.
      apply Z.ltb_lt in Hfloor. now rewrite Hfloor.
Qed.

(** X7: the fragments are those of the visited tags that pass the tests,
    one per tag, in document order. *)
Theorem extract_document_order (markup : node -> string) (soup : node) :
  extract_elements markup soup
  = map (fragment_of markup) (filter kept (find_all (body_or_soup soup))).
Proof.
  unfold extract_elements. rewrite extract_loop_spec. simpl.
  induction (find_all (body_or_soup soup)) as [|t tags IH]; [reflexivity|].
  simpl. rewrite extract_step_kept, IH. now destruct (kept t).
Qed.

(** X8: nested content is extracted more than once.  Take a visited tag
    that is not blacklisted and a tag below it whose text meets the floor,
    neither of them a string container (rt, rp, style, script, template):
    the upper tag is a fragment too, and its tokens contain the lower
    tag's tokens. *)
Theorem nested_text_repeats (markup : node -> string) (soup p t : node) :
  In p (find_all (body_or_soup soup)) ->
  name_in blacklist (tag_name p) = false ->
  name_in string_containers (tag_name p) = false ->
  In t (find_all p) ->
  name_in string_containers (tag_name t) = false ->
  (5 <= len (split (get_text " " t)))%Z ->
  In (fragment_of markup p) (extract_elements markup soup) /\
  exists a b,
    split (text (fragment_of markup p))
    = a ++ split (text (fragment_of markup t)) ++ b.
Proof.
  intros Hp Hname Hkind_p Ht Hkind_t Hfloor.
  assert (Hkind : interesting_string_types (tag_name p)
                  = interesting_string_types (tag_name t))
    by (unfold interesting_string_types; now rewrite Hkind_p, Hkind_t).
  destruct (get_text_tokens_sub p t (find_all_below p t Ht) Hkind)
    as (a & b & Hsub).
  split; [|now exists a, b].
  apply extract_elements_in. exists p. split; [exact Hp|].
  apply extract_step_keeps; [exact Hname|].
  rewrite Hsub. rewrite !len_app.
  pose proof (len_nonneg a). pose proof (len_nonneg b). lia.
Qed.

Lemma nested_text_repeats_witness :
  let inner := Tag "b" [] [NavigableString "four five six seven eight"] in
  let outer := Tag "p" [] [NavigableString "  one two three "; inner] in
  let soup := Tag "[document]" [] [Tag "body" [] [outer]] in
  In outer (find_all (body_or_soup soup)) /\
  In inner (find_all outer) /\
  In (fragment_of sample_markup outer) (extract_elements sample_markup soup) /\
  exists a b,
    split (text (fragment_of sample_markup outer))
    = a ++ split (text (fragment_of sample_markup inner)) ++ b.
Proof.
  intros inner outer soup.
  assert (Hp : In outer (find_all (body_or_soup soup))) by (left; reflexivity).
  assert (Ht : In inner (find_all outer)) by (left; reflexivity).
  assert (Hfloor : (5 <= len (split (get_text " " inner)))%Z)
    by (vm_compute; discriminate).
  split; [exact Hp|]. split; [exact Ht|].
  exact (nested_text_repeats sample_markup soup outer inner
           Hp eq_refl eq_refl Ht eq_refl Hfloor).
Defined.

(** Text of a template is not part of the text of the tag around it: the
    [div] below has no text of its own and is not a fragment, the
    [template] is. *)
Example template_text_stays_inside :
  let inner := Tag "template" []
                 [ContainerString "template" "one two three four five six"] in
  let soup := Tag "[document]" [] [Tag "body" [] [Tag "div" [] [inner]]] in
  map tag (extract_elements sample_markup soup) = ["template"].
Proof. reflexivity. Qed.

Lemma decompose_children (names : list string) (nm : string)
  (attrs : list (string * string)) (cs : list node) :
  decompose_all names (Tag nm attrs cs)
  = Tag nm attrs
      (map (decompose_all names)
         (filter (fun c => negb (is_tag c && name_in names (tag_name c))) cs)).
Proof.
  simpl. f_equal. induction cs as [|c cs IH]; [reflexivity|].
  simpl. destruct (is_tag c && name_in names (tag_name c))%bool; simpl;
    now rewrite IH.
Qed.

Lemma decompose_tag_name (names : list string) (n : node) :
  tag_name (decompose_all names n) = tag_name n /\
  is_tag (decompose_all names n) = is_tag n.
Proof. destruct n; simpl; auto. Qed.

Lemma tag_and_descendants_find_all (n : node) :
  tag_and_descendants n = if is_tag n then n :: find_all n else [].
Proof. destruct n; reflexivity. Qed.

(** After the pruning pass no tag below the root carries a pruned name. *)
Lemma decompose_all_clean (names : list string) (n : node) :
  Forall (fun t => name_in names (tag_name t) = false)
    (find_all (decompose_all names n)).
Proof.
  induction n as [s|s|owner s|nm attrs cs IH] using node_induction;
    try (simpl; constructor).
  rewrite decompose_children. simpl find_all.
  apply Forall_flat_map. apply Forall_forall. intros c' Hc'.
  apply in_map_iff in Hc' as (c & <- & Hc).
  apply filter_In in Hc as [Hc Hkeep].
  rewrite tag_and_descendants_find_all.
  destruct (decompose_tag_name names c) as [Hname Htag]. rewrite Htag.
  destruct (is_tag c) eqn:Hc_tag; [|constructor].
  constructor.
  - rewrite Hname. simpl in Hkeep. now apply negb_true_iff in Hkeep.
  - rewrite Forall_forall in IH. now apply IH.
Qed.

Lemma body_or_soup_cases (soup : node) :
  body_or_soup soup = soup \/ In (body_or_soup soup) (find_all soup).
Proof.
  unfold body_or_soup, soup_body.
  destruct (find _ (find_all soup)) as [b|] eqn:Hfind; [right | now left].
  now apply find_some in Hfind.
Qed.

(** X9: after the handler's pruning pass (called there with script, style,
    header, footer and nav) no tag below the document root carries a
    pruned name, and so no tag the extractor visits does. *)
Theorem pruned_tags_gone (names : list string) (soup : node) :
  Forall (fun t => name_in names (tag_name t) = false)
    (find_all (decompose_all names soup)) /\
  Forall (fun t => name_in names (tag_name t) = false)
    (find_all (body_or_soup (decompose_all names soup))).
Proof.
  pose proof (decompose_all_clean names soup) as Hclean.
  split; [exact Hclean|].
  destruct (body_or_soup_cases (decompose_all names soup)) as [->|Hbody];
    [exact Hclean|].
  rewrite Forall_forall in *. intros t Ht. apply Hclean.
  now apply find_all_trans with (b := body_or_soup (decompose_all names soup)).
Qed.

(** ** Extraction and chunking composed *)

Lemma extracted_have_tokens (markup : node -> string) (soup : node) :
  Forall (fun el => has_tokens el = true) (extract_elements markup soup).
Proof.
  apply Forall_forall. intros el Hel.
  apply extract_elements_in in Hel as (t & _ & Hstep).
  apply extract_step_some in Hstep as (_ & _ & Hfloor & ->).
  unfold has_tokens, tokens_of, len in *. simpl.
  destruct (split (get_text " " t)); [simpl in Hfloor; lia | reflexivity].
Qed.

Lemma filter_all {A} (f : A -> bool) (l : list A) :
  Forall (fun x => f x = true) l -> filter f l = l.
Proof.
  induction 1 as [|x l Hx _ IH]; [reflexivity|]. simpl. now rewrite Hx, IH.
Qed.

(** X10: in the handler the assembler drops nothing: the chunks' markup
    concatenated is the markup of all extracted fragments concatenated,
    and the chunks' tokens are the fragments' tokens, in order. *)
Theorem page_chunks_round_trip (E : env) (soup : node) :
  join "" (map html (page_chunks E soup))
  = join "" (map html (page_fragments E soup)) /\
  flat_map (fun c => split (text c)) (page_chunks E soup)
  = flat_map (fun el => split (text el)) (page_fragments E soup).
Proof.
  unfold page_chunks. fold (page_fragments E soup).
  destruct (chunk_groups (page_fragments E soup) 500) as (gs & -> & Hcat & _).
  rewrite (filter_all has_tokens) in Hcat by apply extracted_have_tokens.
  split.
  - now rewrite chunks_markup, Hcat.
  - now rewrite chunks_tokens, Hcat.
Qed.

(** X11: the handler takes the empty-result shortcut exactly when the
    extractor finds no fragment. *)
Theorem page_chunks_empty_iff (E : env) (soup : node) :
  page_chunks E soup = [] <-> page_fragments E soup = [].
Proof.
  unfold page_chunks. fold (page_fragments E soup).
  destruct (chunk_groups (page_fragments E soup) 500) as (gs & -> & Hcat & Hok).
  rewrite (filter_all has_tokens) in Hcat by apply extracted_have_tokens.
  rewrite <- Hcat. split.
  - intros H. apply map_eq_nil in H. now subst gs.
  - intros H. rewrite (concat_nil_nonempty gs); [reflexivity | | exact H].
    eapply Forall_impl; [|exact Hok]. now intros g [Hg _].
Qed.

(** ** Request handler: every outcome *)

Lemma prefix_of_nil {A} (full : list A) : prefix_of [] full.
Proof. now exists full. Qed.

(** Every run of the [try] block: the fetch, then an initial segment of
    create, add, query, delete on the request's collection; the table
    keeps what it had and gains at most the request's collection; a
    returned response has status 200. *)
Lemma search_body_outcome (E : env) (url q : json) (w w' : world)
  (r : result response) :
  search_body E url q w = (r, w') ->
  exists calls,
    trace w' = trace w ++ EvGet url :: calls /\
    prefix_of calls (engine_calls (request_collection E)) /\
    table_after E w w' /\
    (forall resp, r = inr resp ->
                  status resp = 200%Z /\ collections w' = collections w).
Proof.
  intros H.
  destruct (requests_get E url) as [e|content] eqn:Hget.
  { unfold search_body, bind, lift, log in H. rewrite Hget in H.
    inversion H; subst. exists []. simpl.
    split; [reflexivity|]. split; [apply prefix_of_nil|].
    split; [now left | discriminate]. }
  destruct (html_parser E content) as [e|soup] eqn:Hparse.
  { unfold search_body, bind, lift, log in H. rewrite Hget, Hparse in H.
    inversion H; subst. exists []. simpl.
    split; [reflexivity|]. split; [apply prefix_of_nil|].
    split; [now left | discriminate]. }
  destruct (page_chunks E soup) as [|c cs] eqn:Hchunks.
  { rewrite (search_body_empty E url q w content soup Hget Hparse Hchunks) in H.
    inversion H; subst. exists []. simpl.
    split; [reflexivity|]. split; [apply prefix_of_nil|].
    split; [now left|]. intros resp Hresp. inversion Hresp. now split. }
  assert (Hne : page_chunks E soup <> []) by (rewrite Hchunks; discriminate).
  rewrite (search_body_chunks E url q w content soup Hget Hparse Hne) in H.
  clear Hchunks Hne. unfold table_after, engine_calls.
  remember (page_chunks E soup) as chunks eqn:Hc. clear Hc.
  destruct (has_collection (request_collection E) (fetched url w)) eqn:Hfresh.
  { unfold index_and_query in H. fold (request_collection E) in H.
    revert H Hfresh. generalize (request_collection E). intros name H Hfresh.
    unfold bind at 1 in H. rewrite create_collection_run, Hfresh in H.
    exists [EvCreate name].
    destruct (create_fault E name); inversion H; subst;
      unfold logged, fetched; simpl;
      (split; [now rewrite <- app_assoc|]);
      (split; [now exists [EvAdd name; EvQuery name; EvDelete name]|]);
      (split; [now left | discriminate]). }
  rewrite (index_and_query_run E url q _ _ Hfresh) in H.
  change (has_collection (request_collection E) (fetched url w))
    with (has_collection (request_collection E) w) in Hfresh.
  revert H Hfresh. generalize (request_collection E). intros name H Hfresh.
  destruct (create_fault E name).
  { inversion H; subst. exists [EvCreate name]. unfold logged, fetched. simpl.
    split; [now rewrite <- app_assoc|].
    split; [now exists [EvAdd name; EvQuery name; EvDelete name]|].
    split; [now left | discriminate]. }
  destruct (add_fault E name _).
  { inversion H; subst. exists [EvCreate name; EvAdd name]. simpl.
    split; [now rewrite <- app_assoc|].
    split; [now exists [EvQuery name; EvDelete name]|].
    split; [right; split; [exact Hfresh | now exists []] | discriminate]. }
  destruct (knn_query E _ q _) as [e|results].
  { inversion H; subst. exists [EvCreate name; EvAdd name; EvQuery name]. simpl.
    split; [now rewrite <- app_assoc|].
    split; [now exists [EvDelete name]|].
    split; [right; split; [exact Hfresh | eauto] | discriminate]. }
  destruct (delete_fault E name).
  { inversion H; subst.
    exists [EvCreate name; EvAdd name; EvQuery name; EvDelete name]. simpl.
    split; [now rewrite <- app_assoc|].
    split; [now exists []|].
    split; [right; split; [exact Hfresh | eauto] | discriminate]. }
  inversion H; subst.
  exists [EvCreate name; EvAdd name; EvQuery name; EvDelete name]. simpl.
  split; [now rewrite <- app_assoc|].
  split; [now exists []|].
  split; [now left|].
  intros resp Hresp. destruct (format_results results); inversion Hresp.
  now split.
Qed.

(** The [except] branch keeps the table and adds one printed line. *)
Lemma except_branch (e : exn) (w1 w' : world) (r : result response) :
  (log (EvPrint ("Error: " ++ exn_str e)) ;;; ret (server_error e)) w1 = (r, w') ->
  r = inr (server_error e) /\
  collections w' = collections w1 /\
  trace w' = trace w1 ++ [EvPrint ("Error: " ++ exn_str e)].
Proof. unfold bind, log, ret. intros H. inversion H. auto. Qed.

Lemma falsy_values_falsy (v : json) : In v falsy_values -> truthy v = false.
Proof.
  unfold falsy_values. simpl.
  intros [<-|[<-|[<-|[<-|[<-|[<-|[]]]]]]]; reflexivity.
Qed.

Lemma stored_in_other (n name : string) (docs : list stored)
  (cs : list (string * list stored)) :
  n <> name -> stored_in n (cs ++ [(name, docs)]) = stored_in n cs.
Proof.
  intros Hn. induction cs as [|[n' ds] cs IH]; simpl.
  - apply String.eqb_neq in Hn. now rewrite Hn.
  - now rewrite IH.
Qed.

(** On a body that passes validation the handler fetches first, then calls
    the engine along an initial segment of create, add, query, delete on
    the request's collection; the response is 200, or one line was printed
    and the response is a 500 error object. *)
Lemma engine_calls_in_order (E : env) (d : dict) (w w' : world) (r : result response) :
  truthy (dict_get d "url" JNull) = true ->
  truthy (dict_get d "query" JNull) = true ->
  search_content E (JObj d) w = (r, w') ->
  exists resp calls printed,
    r = inr resp /\
    trace w' = trace w ++ EvGet (dict_get d "url" JNull) :: calls ++ printed /\
    prefix_of calls (engine_calls (request_collection E)) /\
    ((printed = [] /\ status resp = 200%Z) \/
     exists e, printed = [EvPrint ("Error: " ++ exn_str e)] /\
               resp = server_error e).
Proof.
  intros Hu Hq Hrun. rewrite search_content_valid in Hrun by assumption.
  unfold try_except in Hrun.
  destruct (search_body E (dict_get d "url" JNull) (dict_get d "query" JNull) w)
    as [[e|resp] w1] eqn:Hbody;
    destruct (search_body_outcome _ _ _ _ _ _ Hbody)
      as (calls & Htrace & Hprefix & _ & Hok).
  - apply except_branch in Hrun as (-> & _ & Hprinted).
    exists (server_error e), calls, [EvPrint ("Error: " ++ exn_str e)].
    split; [reflexivity|]. split.
    + rewrite Hprinted, Htrace. now rewrite <- app_assoc.
    + split; [exact Hprefix|]. right. now exists e.
  - inversion Hrun; subst. exists resp, calls, [].
    split; [reflexivity|]. split; [now rewrite app_nil_r|].
    split; [exact Hprefix|]. left. split; [reflexivity|].
    exact (proj1 (Hok resp eq_refl)).
Qed.

(** X13: isolation.  Whatever the body and whatever fails, the engine's
    table after the request is the table before it, or that table with
    the request's own collection added under a name that was not in use;
    a collection under any other name is found as before. *)
Theorem other_collections_untouched (E : env) (data : json) (w w' : world)
  (r : result response) :
  search_content E data w = (r, w') ->
  table_after E w w' /\
  forall n, n <> request_collection E ->
            stored_in n (collections w') = stored_in n (collections w).
Proof.
  intros Hrun.
  assert (Htable : table_after E w w').
  { destruct data as [| | | | |d];
      try (unfold search_content, raise in Hrun; inversion Hrun; now left).
    destruct (truthy (dict_get d "url" JNull)) eqn:Hu.
    2:{ rewrite search_content_falsy in Hrun by (now left).
        inversion Hrun. now left. }
    destruct (truthy (dict_get d "query" JNull)) eqn:Hq.
    2:{ rewrite search_content_falsy in Hrun by (now right).
        inversion Hrun. now left. }
    rewrite search_content_valid in Hrun by assumption.
    unfold try_except in Hrun.
    destruct (search_body E (dict_get d "url" JNull) (dict_get d "query" JNull) w)
      as [[e|resp] w1] eqn:Hbody;
      destruct (search_body_outcome _ _ _ _ _ _ Hbody)
        as (calls & _ & _ & Htable & _).
    - apply except_branch in Hrun as (_ & Hsame & _).
      unfold table_after in *. now rewrite Hsame.
    - now inversion Hrun; subst. }
  split; [exact Htable|]. intros n Hn.
  destruct Htable as [->|(_ & docs & ->)]; [reflexivity|].
  now apply stored_in_other.
Qed.

(** X14: no exception leaves the handler when the body is a JSON object,
    and the status is 200, 400 or 500; any other body makes [data.get]
    raise before anything is done. *)
Theorem handler_catches_everything (E : env) (data : json) (w : world) :
  if is_object data
  then exists resp w',
      search_content E data w = (inr resp, w') /\
      In (status resp) [200%Z; 400%Z; 500%Z]
  else search_content E data w
       = (inl (Exception "AttributeError" "object has no attribute 'get'"), w).
Proof.
  destruct data as [| | | | |d]; try reflexivity. simpl is_object.
  destruct (truthy (dict_get d "url" JNull)) eqn:Hu.
  2:{ exists client_error, w. split; [apply search_content_falsy; now left|].
      simpl. auto. }
  destruct (truthy (dict_get d "query" JNull)) eqn:Hq.
  2:{ exists client_error, w. split; [apply search_content_falsy; now right|].
      simpl. auto. }
  destruct (search_body E (dict_get d "url" JNull) (dict_get d "query" JNull) w)
    as [[e|resp] w1] eqn:Hbody.
  - eexists. eexists.
    split; [exact (search_content_caught E d w w1 e Hu Hq Hbody)|].
    simpl. auto.
  - exists resp, w1.
    split; [exact (search_content_returned E d w w1 resp Hu Hq Hbody)|].
    destruct (search_body_outcome _ _ _ _ _ _ Hbody) as (_ & _ & _ & _ & Hok).
    rewrite (proj1 (Hok resp eq_refl)). simpl. auto.
Qed.

(** A body that passes validation is answered with 200 or 500. *)
Lemma valid_request_status (E : env) (d : dict) (w w' : world) (resp : response) :
  truthy (dict_get d "url" JNull) = true ->
  truthy (dict_get d "query" JNull) = true ->
  search_content E (JObj d) w = (inr resp, w') ->
  status resp = 200%Z \/ status resp = 500%Z.
Proof.
  intros Hu Hq Hrun.
  destruct (search_body E (dict_get d "url" JNull) (dict_get d "query" JNull) w)
    as [[e|resp1] w1] eqn:Hbody.
  - rewrite (search_content_caught E d w w1 e Hu Hq Hbody) in Hrun.
    inversion Hrun. now right.
  - rewrite (search_content_returned E d w w1 resp1 Hu Hq Hbody) in Hrun.
    inversion Hrun; subst.
    destruct (search_body_outcome _ _ _ _ _ _ Hbody) as (_ & _ & _ & _ & Hok).
    left. exact (proj1 (Hok resp eq_refl)).
Qed.

(** X15: validation is truthiness.  The status is 400 exactly when [url]
    or [query] is falsy; then nothing was done; and null, false, 0, the
    empty string, the empty list and the empty object are all rejected
    like a missing key. *)
Theorem client_error_iff (E : env) (d : dict) (w w' : world) (resp : response) :
  search_content E (JObj d) w = (inr resp, w') ->
  (status resp = 400%Z <->
   truthy (dict_get d "url" JNull) = false \/
   truthy (dict_get d "query" JNull) = false) /\
  (status resp = 400%Z -> resp = client_error /\ w' = w) /\
  (forall v, In v falsy_values ->
             lookup "url" d = Some v \/ lookup "query" d = Some v ->
             status resp = 400%Z).
Proof.
  intros Hrun.
  assert (Hfalsy : truthy (dict_get d "url" JNull) = false \/
                   truthy (dict_get d "query" JNull) = false ->
                   resp = client_error /\ w' = w).
  { intros H. rewrite search_content_falsy in Hrun by exact H.
    now inversion Hrun. }
  assert (Hiff : status resp = 400%Z <->
                 truthy (dict_get d "url" JNull) = false \/
                 truthy (dict_get d "query" JNull) = false).
  { split; [|intros H; now rewrite (proj1 (Hfalsy H))].
    intros Hstatus.
    destruct (truthy (dict_get d "url" JNull)) eqn:Hu; [|now left].
    destruct (truthy (dict_get d "query" JNull)) eqn:Hq; [|now right].
    exfalso.
    destruct (valid_request_status E d w w' resp Hu Hq Hrun) as [H|H];
      rewrite H in Hstatus; discriminate. }
  split; [exact Hiff|]. split.
  - intros Hstatus. apply Hfalsy, Hiff, Hstatus.
  - intros v Hv Hlookup. apply Hiff. unfold dict_get.
    destruct Hlookup as [-> | ->]; [left | right]; now apply falsy_values_falsy.
Qed.

Lemma other_collections_untouched_witness :
  let E := sample_env sample_page embedding_down in
  exists r w',
    search_content E (JObj sample_request) idle = (r, w') /\
    table_after E idle w' /\
    forall n, n <> request_collection E ->
              stored_in n (collections w') = stored_in n (collections idle).
Proof.
  intros E.
  destruct (search_content E (JObj sample_request) idle) as [r w'] eqn:Hrun.
  exists r, w'. split; [reflexivity|].
  exact (other_collections_untouched E (JObj sample_request) idle w' r Hrun).
Defined.

Lemma client_error_iff_witness :
  let E := sample_env sample_page first_k in
  let d := [("url", JNum 0); ("query", JStr "six words")] in
  exists resp w',
    search_content E (JObj d) idle = (inr resp, w') /\
    (status resp = 400%Z <->
     truthy (dict_get d "url" JNull) = false \/
     truthy (dict_get d "query" JNull) = false) /\
    (status resp = 400%Z -> resp = client_error /\ w' = idle) /\
    (forall v, In v falsy_values ->
               lookup "url" d = Some v \/ lookup "query" d = Some v ->
               status resp = 400%Z).
Proof.
  intros E d. exists client_error, idle.
  assert (Hrun : search_content E (JObj d) idle = (inr client_error, idle))
    by reflexivity.
  split; [exact Hrun|].
  exact (client_error_iff E d idle idle client_error Hrun).
Defined.

(** X16: a 200 response leaves the engine's table as the request found it:
    either no collection was created, or all four calls were made and the
    last one deleted the request's collection. *)
Theorem success_restores_table (E : env) (d : dict) (w w' : world)
  (resp : response) :
  search_content E (JObj d) w = (inr resp, w') ->
  status resp = 200%Z ->
  collections w' = collections w /\
  (trace w' = trace w ++ [EvGet (dict_get d "url" JNull)] \/
   trace w' = trace w ++ EvGet (dict_get d "url" JNull)
                      :: engine_calls (request_collection E)).
Proof.
  intros Hrun Hstatus. apply search_content_ok in Hrun; [|exact Hstatus].
  apply search_body_success in Hrun
    as (content & soup & _ & _ & [(_ & _ & ->)|(r & rs & _ & _ & _ & Hc & Ht)]).
  - split; [reflexivity | now left].
  - split; [exact Hc | right]. rewrite Ht. reflexivity.
Qed.

Lemma success_restores_table_witness :
  let E := sample_env sample_page first_k in
  exists resp w',
    search_content E (JObj sample_request) idle = (inr resp, w') /\
    status resp = 200%Z /\
    collections w' = collections idle /\
    (trace w' = trace idle ++ [EvGet (dict_get sample_request "url" JNull)] \/
     trace w' = trace idle ++ EvGet (dict_get sample_request "url" JNull)
                           :: engine_calls (request_collection E)).
Proof.
  intros E.
  destruct (search_content E (JObj sample_request) idle) as [[e|resp] w'] eqn:Hrun;
    [vm_compute in Hrun; discriminate Hrun|].
  assert (Hstatus : status resp = 200%Z)
    by (vm_compute in Hrun; inversion Hrun; reflexivity).
  exists resp, w'. split; [reflexivity|]. split; [exact Hstatus|].
  exact (success_restores_table E sample_request idle w' resp Hrun Hstatus).
Defined.

(** X17: when the fetch or the parse raises, the response is 500 with the
    exception's message; the handler made the fetch and printed one line,
    and did not call the index engine. *)
Theorem fetch_failure_reported (E : env) (d : dict) (w : world) (e : exn) :
  truthy (dict_get d "url" JNull) = true ->
  truthy (dict_get d "query" JNull) = true ->
  requests_get E (dict_get d "url" JNull) = inl e \/
  (exists content,
      requests_get E (dict_get d "url" JNull) = inr content /\
      html_parser E content = inl e) ->
  search_content E (JObj d) w
  = (inr {| status := 500; body := JObj [("error", JStr (exn_str e))] |},
     {| collections := collections w;
        trace := trace w ++ [EvGet (dict_get d "url" JNull);
                             EvPrint ("Error: " ++ exn_str e)] |}).
Proof.
  intros Hu Hq Hfail.
  rewrite (search_content_caught E d w (fetched (dict_get d "url" JNull) w) e Hu Hq).
  - unfold logged, fetched, server_error. simpl. now rewrite <- app_assoc.
  - unfold search_body, bind, lift, log.
    destruct Hfail as [-> | (content & -> & ->)]; reflexivity.
Qed.

Lemma fetch_failure_reported_witness :
  let E := {| requests_get := fun _ => inl (Exception "ConnectionError" "no route");
              html_parser := fun _ => inr sample_page;
              node_str := sample_markup;
              uuid4_hex := "1f0e";
              create_fault := fun _ => None;
              add_fault := fun _ _ => None;
              knn_query := first_k;
              delete_fault := fun _ => None |} in
  search_content E (JObj sample_request) idle
  = (inr {| status := 500; body := JObj [("error", JStr "no route")] |},
     {| collections := [];
        trace := [EvGet sample_url; EvPrint "Error: no route"] |}).
Proof.
  intros E.
  exact (fetch_failure_reported E sample_request idle
           (Exception "ConnectionError" "no route") eq_refl eq_refl
           (or_introl eq_refl)).
Defined.

(** X18: a failing teardown replaces the results.  When the query answered
    and [delete_collection] raises, the response is 500 with the teardown's
    message, and the populated collection stays in the engine. *)
Theorem teardown_failure_replaces_results (E : env) (d : dict) (w : world)
  (content : string) (soup : node) (r : query_result) (e : exn) :
  let url := dict_get d "url" JNull in
  let name := request_collection E in
  truthy url = true ->
  truthy (dict_get d "query" JNull) = true ->
  requests_get E url = inr content ->
  html_parser E content = inr soup ->
  page_chunks E soup <> [] ->
  has_collection name w = false ->
  create_fault E name = None ->
  add_fault E name (indexed_chunks url (page_chunks E soup)) = None ->
  knn_query E (indexed_chunks url (page_chunks E soup)) (dict_get d "query" JNull)
    (Z.min 10 (len (page_chunks E soup))) = inr r ->
  delete_fault E name = Some e ->
  search_content E (JObj d) w
  = (inr (server_error e),
     {| collections :=
          collections w ++ [(name, indexed_chunks url (page_chunks E soup))];
        trace := trace w ++ EvGet url :: engine_calls name
                         ++ [EvPrint ("Error: " ++ exn_str e)] |}).
Proof.
  intros url name Hu Hq Hget Hparse Hchunks Hfresh Hcreate Hadd Hquery Hdelete.
  rewrite (search_content_caught E d w
             {| collections :=
                  collections w ++ [(name, indexed_chunks url (page_chunks E soup))];
                trace := trace w ++ EvGet url :: engine_calls name |} e Hu Hq).
  - unfold logged. cbn [collections trace]. now rewrite <- app_assoc.
  - fold url. rewrite (search_body_chunks E url _ w content soup Hget Hparse Hchunks).
    rewrite index_and_query_run by exact Hfresh.
    fold name. rewrite Hcreate, Hadd, Hquery, Hdelete.
    unfold fetched, engine_calls. cbn [collections trace].
    now rewrite <- app_assoc.
Qed.

Lemma teardown_failure_replaces_results_witness :
  let E := {| requests_get := fun _ => inr "<html>...</html>";
              html_parser := fun _ => inr sample_page;
              node_str := sample_markup;
              uuid4_hex := "1f0e";
              create_fault := fun _ => None;
              add_fault := fun _ _ => None;
              knn_query := first_k;
              delete_fault := fun _ => Some (Exception "RuntimeError" "engine busy") |} in
  exists w',
    search_content E (JObj sample_request) idle
    = (inr (server_error (Exception "RuntimeError" "engine busy")), w') /\
    has_collection (request_collection E) w' = true.
Proof.
  intros E.
  assert (Hne : page_chunks E sample_page <> []) by (vm_compute; discriminate).
  eexists. split.
  - exact (teardown_failure_replaces_results E sample_request idle
             "<html>...</html>" sample_page _ _
             eq_refl eq_refl eq_refl eq_refl Hne eq_refl eq_refl eq_refl
             eq_refl eq_refl).
  - reflexivity.
Defined.

(** ** Response formatting: the distances row *)




(** X20: formatting comes after the teardown.  When the query answered,
    the collection was deleted and the formatter raises, the response is
    500 with the formatter's message and the engine's table is as the
    request found it. *)
Theorem formatting_failure_after_teardown (E : env) (d : dict) (w : world)
  (content : string) (soup : node) (r : query_result) (e : exn) :
  let url := dict_get d "url" JNull in
  let name := request_collection E in
  truthy url = true ->
  truthy (dict_get d "query" JNull) = true ->
  requests_get E url = inr content ->
  html_parser E content = inr soup ->
  page_chunks E soup <> [] ->
  has_collection name w = false ->
  create_fault E name = None ->
  add_fault E name (indexed_chunks url (page_chunks E soup)) = None ->
  knn_query E (indexed_chunks url (page_chunks E soup)) (dict_get d "query" JNull)
    (Z.min 10 (len (page_chunks E soup))) = inr r ->
  delete_fault E name = None ->
  format_results r = inl e ->
  search_content E (JObj d) w
  = (inr (server_error e),
     {| collections := collections w;
        trace := trace w ++ EvGet url :: engine_calls name
                         ++ [EvPrint ("Error: " ++ exn_str e)] |}).
Proof.
  intros url name Hu Hq Hget Hparse Hchunks Hfresh Hcreate Hadd Hquery Hdelete
    Hformat.
  rewrite (search_content_caught E d w
             {| collections := collections w;
                trace := trace w ++ EvGet url :: engine_calls name |} e Hu Hq).
  - unfold logged. cbn [collections trace]. now rewrite <- app_assoc.
  - fold url. rewrite (search_body_chunks E url _ w content soup Hget Hparse Hchunks).
    rewrite index_and_query_run by exact Hfresh.
    fold name. rewrite Hcreate, Hadd, Hquery, Hdelete, Hformat.
    unfold fetched, engine_calls. cbn [collections trace].
    now rewrite <- app_assoc.
Qed.

Lemma formatting_failure_after_teardown_witness :
  let E := {| requests_get := fun _ => inr "<html>...</html>";
              html_parser := fun _ => inr sample_page;
              node_str := sample_markup;
              uuid4_hex := "1f0e";
              create_fault := fun _ => None;
              add_fault := fun _ _ => None;
              knn_query := fun docs _ _ =>
                inr {| documents := Val [map st_document docs];
                       metadatas := Val [map st_metadata docs];
                       distances := Val [[]] |};
              delete_fault := fun _ => None |} in
  exists w',
    search_content E (JObj sample_request) idle
    = (inr (server_error (Exception "IndexError" "list index out of range")), w') /\
    collections w' = [].
Proof.
  intros E.
  assert (Hne : page_chunks E sample_page <> []) by (vm_compute; discriminate).
  eexists. split.
  - exact (formatting_failure_after_teardown E sample_request idle
             "<html>...</html>" sample_page _ _
             eq_refl eq_refl eq_refl eq_refl Hne eq_refl eq_refl eq_refl
             eq_refl eq_refl eq_refl).
  - reflexivity.
Defined.

(** ** The identifiers given to the index *)

Lemma str_of_nat_inj (a b : nat) : str_of_nat a = str_of_nat b -> a = b.
Proof.
  unfold str_of_nat. intros H.
  apply (f_equal NilEmpty.uint_of_string) in H.
  rewrite !NilEmpty.usu in H. inversion H as [Huint].
  now apply DecimalNat.Unsigned.to_uint_inj.
Qed.

Lemma numbered_fst {A} (l : list A) :
  forall k, map fst (numbered k l) = seq k (List.length l).
Proof.
  unfold numbered. induction l as [|x l IH]; intros k; [reflexivity|].
  simpl. now rewrite IH.
Qed.

Lemma numbered_snd {A} (l : list A) :
  forall k, map snd (numbered k l) = l.
Proof.
  unfold numbered. induction l as [|x l IH]; intros k; [reflexivity|].
  simpl. now rewrite IH.
Qed.

Lemma nodup_map_injective {A B} (f : A -> B) (l : list A) :
  (forall a b, f a = f b -> a = b) -> NoDup l -> NoDup (map f l).
Proof.
  intros Hinj. induction 1 as [|x l Hx _ IH]; simpl; constructor; [|exact IH].
  intros Hin. apply in_map_iff in Hin as (y & Hy & Hin).
  apply Hinj in Hy. now subst y.
Qed.

(** X21: what the collection is populated with.  The metadata
    comprehension never raises; the stored entries pair the decimal
    positions 0, 1, ... of the chunks as identifiers, pairwise distinct,
    with the chunks' texts as documents, in order, and each stored
    metadata holds the chunk's markup under [html] and its tag under
    [tag]. *)
Theorem chunk_ids_distinct (url : json) (chunks : list element) :
  let texts := map text chunks in
  let ids := map str_of_nat (range (List.length texts)) in
  (exists metas,
      comprehension
        (fun i =>
           and_then (index chunks i) (fun el =>
           and_then (index (map html chunks) i) (fun h =>
           inr [("source", url);
                ("index", JNum (inject_Z (Z.of_nat i)));
                ("tag", JStr (tag el));
                ("html", JStr h)])))
        (range (List.length texts)) = inr metas /\
      zip3 ids texts metas = indexed_chunks url chunks) /\
  map st_id (indexed_chunks url chunks) = ids /\
  NoDup ids /\
  map st_document (indexed_chunks url chunks) = texts /\
  map (fun s => dict_get (st_metadata s) "html" JNull) (indexed_chunks url chunks)
  = map (fun c => JStr (html c)) chunks /\
  map (fun s => dict_get (st_metadata s) "tag" JNull) (indexed_chunks url chunks)
  = map (fun c => JStr (tag c)) chunks.
Proof.
  intros texts ids. unfold ids, texts, indexed_chunks, range.
  rewrite length_map. split.
  { eexists. split; [apply metadata_comprehension_all | apply zip3_numbered]. }
  rewrite !map_map. simpl.
  split; [now rewrite <- (numbered_fst chunks 0), map_map|].
  split.
  { apply nodup_map_injective; [exact str_of_nat_inj | apply seq_NoDup]. }
  split; [now rewrite <- (numbered_snd chunks 0) at 2; rewrite map_map|].
  split; rewrite <- (numbered_snd chunks 0) at 2; now rewrite map_map.
Qed.

(** ** The index protocol, case by case *)

(** X12: the index protocol.  On a page with chunks and a collection name
    that is new to the engine, the handler calls create, add, query and
    delete in this order and stops at the first call that raises: it then
    prints one line and answers 500 with that exception's message, and the
    table holds what the calls made so far left in it.  Only when no call
    raised and the formatter returned is the answer 200 with the formatted
    results. *)
Theorem engine_protocol (E : env) (d : dict) (w : world)
  (content : string) (soup : node) :
  let url := dict_get d "url" JNull in
  let q := dict_get d "query" JNull in
  let name := request_collection E in
  let docs := indexed_chunks url (page_chunks E soup) in
  let failed := fun (e : exn) (calls : list event)
                    (table : list (string * list stored)) =>
    (inr (server_error e) : result response,
     {| collections := table;
        trace := trace w ++ EvGet url :: calls
                         ++ [EvPrint ("Error: " ++ exn_str e)] |}) in
  truthy url = true ->
  truthy q = true ->
  requests_get E url = inr content ->
  html_parser E content = inr soup ->
  page_chunks E soup <> [] ->
  has_collection name w = false ->
  search_content E (JObj d) w
  = match create_fault E name with
    | Some e => failed e [EvCreate name] (collections w)
    | None =>
    match add_fault E name docs with
    | Some e =>
        failed e [EvCreate name; EvAdd name] (collections w ++ [(name, [])])
    | None =>
    match knn_query E docs q (Z.min 10 (len (page_chunks E soup))) with
    | inl e =>
        failed e [EvCreate name; EvAdd name; EvQuery name]
          (collections w ++ [(name, docs)])
    | inr r =>
    match delete_fault E name with
    | Some e => failed e (engine_calls name) (collections w ++ [(name, docs)])
    | None =>
    match format_results r with
    | inl e => failed e (engine_calls name) (collections w)
    | inr rs =>
        (inr {| status := 200; body := JObj [("results", JArr rs)] |},
         {| collections := collections w;
            trace := trace w ++ EvGet url :: engine_calls name |})
    end end end end end.
Proof.
  intros url q name docs failed Hu Hq Hget Hparse Hchunks Hfresh.
  pose proof (search_body_chunks E url q w content soup Hget Hparse Hchunks)
    as Hbody.
  rewrite index_and_query_run in Hbody by exact Hfresh.
  fold name docs in Hbody. unfold failed, engine_calls.
  revert Hbody.
  destruct (create_fault E name) as [e|].
  { intros Hbody. rewrite (search_content_caught E d w _ e Hu Hq Hbody).
    unfold logged, fetched. simpl. now rewrite <- !app_assoc. }
  destruct (add_fault E name docs) as [e|].
  { intros Hbody. rewrite (search_content_caught E d w _ e Hu Hq Hbody).
    unfold logged, fetched. simpl. now rewrite <- !app_assoc. }
  destruct (knn_query E docs q (Z.min 10 (len (page_chunks E soup)))) as [e|r].
  { intros Hbody. rewrite (search_content_caught E d w _ e Hu Hq Hbody).
    unfold logged, fetched. simpl. now rewrite <- !app_assoc. }
  destruct (delete_fault E name) as [e|].
  { intros Hbody. rewrite (search_content_caught E d w _ e Hu Hq Hbody).
    unfold logged, fetched. simpl. now rewrite <- !app_assoc. }
  destruct (format_results r) as [e|rs].
  { intros Hbody. rewrite (search_content_caught E d w _ e Hu Hq Hbody).
    unfold logged, fetched. simpl. now rewrite <- !app_assoc. }
  intros Hbody. rewrite (search_content_returned E d w _ _ Hu Hq Hbody).
  unfold fetched. simpl. now rewrite <- !app_assoc.
Qed.

Lemma engine_protocol_witness :
  let E := {| requests_get := fun _ => inr "<html>...</html>";
              html_parser := fun _ => inr sample_page;
              node_str := sample_markup;
              uuid4_hex := "1f0e";
              create_fault := fun _ => None;
              add_fault := fun _ _ => Some (Exception "ValueError" "bad ids");
              knn_query := first_k;
              delete_fault := fun _ => None |} in
  search_content E (JObj sample_request) idle
  = (inr (server_error (Exception "ValueError" "bad ids")),
     {| collections := [("search_1f0e", [])];
        trace := [EvGet sample_url; EvCreate "search_1f0e"; EvAdd "search_1f0e";
                  EvPrint "Error: bad ids"] |}).
Proof.
  intros E.
  assert (Hne : page_chunks E sample_page <> []) by (vm_compute; discriminate).
  exact (engine_protocol E sample_request idle "<html>...</html>" sample_page
           eq_refl eq_refl eq_refl eq_refl Hne eq_refl).
Defined.
